(** * ddb2es-serverless: DynamoDB stream records to Elasticsearch bulk requests

    A shallow embedding of [src/utils.js], [src/build-request.js] and
    [src/index.js], and the properties of the handler that the specification
    states about them.

    Conventions of the embedding.
    - JavaScript values are the inductive [jsval].  Numbers are the integer
      fragment of JavaScript's numbers (keys, versions and counters of the
      handler); fractions, infinities and NaN are not represented.
    - An object whose property order is observable ([Object.keys], documents)
      is an association list in property order; the action descriptor, an
      object literal that the code updates in place ([delete], assignment,
      [++]), is a [gmap string jsval].
    - A call that may throw returns a [completion]; code that calls hooks or
      the engine client lives in the monad [M], which threads the list of
      calls made so far and keeps it when an exception unwinds.
    - The libraries the code imports (lodash's [get] and [pick], the
      DynamoDB [unmarshall], the [EVENT] schema of [schemas.js]) are
      variables of the section; [Reference] gives instances to compute
      with. *)

From stdpp Require Import gmap strings list pretty.

#[local] Set Warnings "-register-all".

Open Scope Z_scope.
Open Scope string_scope.

(** ** JavaScript values *)

Inductive jsval : Type :=
| VUndef
| VNull
| VBool (b : bool)
| VNum (n : Z)
| VStr (s : string)
| VArr (elems : list jsval)
| VObj (props : list (string * jsval)).

Definition obj : Type := list (string * jsval).

(** [o[k]] on an object given by its property list. *)
Fixpoint prop (o : obj) (k : string) : jsval :=
  match o with
  | [] => VUndef
  | (k', v) :: o' => if String.eqb k k' then v else prop o' k
  end.

(** [Object.keys(o)]. *)
Definition Object_keys (o : obj) : list string := map fst o.

(** [Boolean(v)]: what [if (v)], [!v], [a || b] and [a && b] test. *)
Definition truthy (v : jsval) : bool :=
  match v with
  | VUndef | VNull => false
  | VBool b => b
  | VNum n => negb (Z.eqb n 0)
  | VStr s => negb (String.eqb s "")
  | VArr _ | VObj _ => true
  end.

Definition is_undefined (v : jsval) : bool :=
  match v with VUndef => true | _ => false end.

(** [String(v)], as a template literal applies it; an array prints its
    elements joined by commas, holes for [null] and [undefined]. *)
Fixpoint ToString (v : jsval) : string :=
  match v with
  | VUndef => "undefined"
  | VNull => "null"
  | VBool true => "true"
  | VBool false => "false"
  | VNum n => pretty n
  | VStr s => s
  | VArr l =>
      String.concat ","
        (map (fun e => match e with
                       | VUndef | VNull => ""
                       | _ => ToString e
                       end) l)
  | VObj _ => "[object Object]"
  end.

(** One element of [Array.prototype.join]. *)
Definition join_elem (e : jsval) : string :=
  match e with
  | VUndef | VNull => ""
  | _ => ToString e
  end.

(** [l.join(separator)]; an [undefined] separator is a comma. *)
Definition join (l : list jsval) (separator : option string) : string :=
  String.concat (default "," separator) (map join_elem l).

(** A field path of the configuration: unset, one path, or a list of
    paths ([idField], [indexField], [typeField], [pickFields]). *)
Inductive fieldpath : Type :=
| FUndef
| FStr (p : string)
| FList (ps : list string).

Definition fieldpath_truthy (f : fieldpath) : bool :=
  match f with
  | FUndef => false
  | FStr p => negb (String.eqb p "")
  | FList _ => true
  end.

Definition fieldpath_val (f : fieldpath) : jsval :=
  match f with
  | FUndef => VUndef
  | FStr p => VStr p
  | FList ps => VArr (map VStr ps)
  end.

(** A function-valued option is truthy when it is set. *)
Definition configured {A} (o : option A) : bool :=
  match o with Some _ => true | None => false end.

Definition string_truthy (s : option string) : bool :=
  match s with
  | Some s => negb (String.eqb s "")
  | None => false
  end.

(** ** Records of the stream, errors, completions *)

(** [record.dynamodb]: the three images in wire encoding, [VUndef] when
    the stream left one out. *)
Record stream_images : Type := {
  Keys : jsval;
  NewImage : jsval;
  OldImage : jsval
}.

Record stream_record : Type := {
  eventName : option string;
  eventSource : option string;
  dynamodb : option stream_images
}.

Record event : Type := { Records : list stream_record }.

(** What [parseRecord] returns. *)
Record parsed_record : Type := {
  pKeys : obj;
  pNewImage : obj;
  pOldImage : obj
}.

(** What a call throws or a promise rejects with, by the classes that the
    code and its retry driver tell apart: the handler's own errors; a
    [TypeError] that is no network error; a thrown value that is no
    [Error]; an [Error] of any other class; a [TypeError] that the retry
    driver takes for a network error; the retry driver's [AbortError]
    around another error. *)
Inductive exn : Type :=
| FieldNotFoundError (record : parsed_record) (path : fieldpath)
| ValidationError (message : string)
| UnknownEventNameError (details : stream_record)
| TypeError (message : string)
| Thrown (payload : jsval)
| OtherError (message : string)
| NetworkError (message : string)
| AbortError (originalError : exn).

Inductive completion (A : Type) : Type :=
| Return (a : A)
| Throw (e : exn).
Arguments Return {A} a.
Arguments Throw {A} e.

Definition cbind {A B} (c : completion A) (k : A -> completion B)
  : completion B :=
  match c with
  | Return a => k a
  | Throw e => Throw e
  end.

Declare Scope completion_scope.
Delimit Scope completion_scope with completion.
Notation "'let?' x := c 'in' k" :=
  (cbind c (fun x => k))
  (at level 10, x pattern, c at level 100, k at level 200)
  : completion_scope.

(** [l.map(f)] for an [f] that may throw: the first exception ends it. *)
Definition map_throwing {A B} (f : A -> completion B)
  : list A -> completion (list B) :=
  fix go (l : list A) : completion (list B) :=
    match l with
    | [] => Return []
    | a :: l' =>
        match f a with
        | Throw e => Throw e
        | Return b =>
            match go l' with
            | Throw e => Throw e
            | Return bs => Return (b :: bs)
            end
        end
    end.

(** ** Requests, metadata and the configuration *)

Abbreviation descriptor := (gmap string jsval).

(** One entry of the bulk body: [{ index: d }], [{ delete: d }], or a
    document. *)
Inductive item : Type :=
| IndexAction (d : descriptor)
| DeleteAction (d : descriptor)
| Document (doc : jsval).

(** [{ event: { ...record, dynamodb: { ...record.dynamodb, ...parsedRecord } },
      action, document }] *)
Record meta_entry : Type := {
  meta_record : stream_record;
  meta_parsed : parsed_record;
  meta_action : item;
  meta_document : jsval
}.

(** The accumulator of [buildRequest]. *)
Record request : Type := {
  actions : list item;
  meta : list meta_entry
}.

(** The argument of [esclient.bulk]: [{ ...bulkOpts, body }]. *)
Record bulk_params : Type := {
  bulk_extra : obj;
  body : list item
}.

(** The options of the delay between two attempts. *)
Record delay_options : Type := {
  factor : option Z;
  minTimeout : option Z;
  maxTimeout : option Z;
  randomize : option bool
}.

(** [options.retryOptions]: the number of retries, and the delay options,
    which say when an attempt runs and not whether.  The retry driver's
    [forever], [maxRetryTime], [signal] and callbacks are not
    represented. *)
Record retry_options : Type := {
  retries : option nat;
  backoff : delay_options
}.

Definition resolver : Type := jsval -> jsval -> completion jsval.

(** The handler's options.  A hook is a function of the model that returns
    or throws; [esclient_bulk n params] is the outcome of the call of
    [esclient.bulk] that [n] earlier calls precede. *)
Record options : Type := {
  separator : option string;
  indexPrefix : option string;
  pickFields : fieldpath;
  transformRecordHook : option resolver;
  idResolver : option resolver;
  idField : fieldpath;
  index : option string;
  indexField : fieldpath;
  type : option string;
  typeField : fieldpath;
  parentField : option string;
  versionResolver : option resolver;
  versionField : option string;
  retryOptions : option retry_options;
  beforeHook : option (event -> jsval -> completion unit);
  afterHook :
    option (event -> jsval -> jsval -> list meta_entry -> completion jsval);
  errorHook : option (event -> jsval -> exn -> completion jsval);
  recordErrorHook : option (event -> jsval -> exn -> completion unit);
  bulkOpts : obj;
  esclient_bulk : nat -> bulk_params -> completion jsval
}.

(** ** The monad of the handler: completions over the calls made so far *)

Inductive call : Type :=
| BeforeHookCall
| RecordErrorHookCall (err : exn)
| BulkCall (params : bulk_params)
| AfterHookCall (result : jsval) (m : list meta_entry)
| ErrorHookCall (err : exn).

Definition M (A : Type) : Type := list call -> completion A * list call.

Definition ret {A} (a : A) : M A := fun tr => (Return a, tr).
Definition throw {A} (e : exn) : M A := fun tr => (Throw e, tr).
Definition lift {A} (c : completion A) : M A := fun tr => (c, tr).

Definition bind {A B} (m : M A) (k : A -> M B) : M B :=
  fun tr =>
    match m tr with
    | (Return a, tr') => k a tr'
    | (Throw e, tr') => (Throw e, tr')
    end.

(** [try { m } catch (err) { h err }] *)
Definition try_catch {A} (m : M A) (h : exn -> M A) : M A :=
  fun tr =>
    match m tr with
    | (Return a, tr') => (Return a, tr')
    | (Throw e, tr') => h e tr'
    end.

(** Record a call, then complete as the callee does. *)
Definition invoke {A} (c : call) (outcome : completion A) : M A :=
  fun tr => (outcome, (tr ++ [c])%list).

Declare Scope handler_scope.
Delimit Scope handler_scope with handler.
Notation "x <- m ;; k" :=
  (bind m (fun x => k))
  (at level 100, m at next level, right associativity) : handler_scope.
Notation "m ;;; k" :=
  (bind m (fun _ => k))
  (at level 100, right associativity) : handler_scope.

Definition is_bulk (c : call) : bool :=
  match c with BulkCall _ => true | _ => false end.
Definition is_afterHook (c : call) : bool :=
  match c with AfterHookCall _ _ => true | _ => false end.

Definition count_calls (p : call -> bool) (tr : list call) : nat :=
  length (filter (fun c => p c = true) tr).

(** The double quote of the validation messages. *)
Definition dquote : string :=
  String (Ascii.Ascii false true false false false true false false)
    EmptyString.

(** ** The code *)

Section Handler.

(** lodash's [get(object, path)] ([undefined] when the path leads
    nowhere) and [pick(object, paths)]. *)
Variable get : jsval -> fieldpath -> jsval.
Variable pick : jsval -> fieldpath -> jsval.

(** The DynamoDB converter on one marshalled map [{ M: wire }]. *)
Variable unmarshall : jsval -> completion obj.

(** The [EVENT] schema of [schemas.js], a file that is not among the
    sources, as a parameter: [EVENT event] is the error of the schema's
    validation result with unknown fields allowed, [None] when the
    incoming batch has the shape the schema asks for. *)
Variable EVENT : event -> option string.

(** Modelled from the spec: the [VERSION] schema of [schemas.js], a file
    that is not among the sources.  A version is validated to be numeric;
    the message is the one the repository's tests expect. *)
Definition VERSION (label : string) (version : jsval) : option string :=
  match version with
  | VNum _ => None
  | _ => Some (dquote ++ label ++ dquote ++ " must be a number")
  end.

(** *** utils.js *)

Definition validate {A} (value : A) (schema : A -> option string)
  : completion A :=
  match schema value with
  | Some error => Throw (ValidationError error)
  | None => Return value
  end.

Definition getField (parsedRecord : parsed_record) (path : fieldpath)
  : completion jsval :=
  let value :=
    fold_left
      (fun acc entry => if is_undefined acc then get entry path else acc)
      [VObj (pKeys parsedRecord);
       VObj (pNewImage parsedRecord);
       VObj (pOldImage parsedRecord)]
      VUndef in
  if is_undefined value
  then Throw (FieldNotFoundError parsedRecord path)
  else Return value.

Definition assembleField (parsedRecord : parsed_record)
    (paths : fieldpath) (separator : option string) : completion jsval :=
  match paths with
  | FList ps =>
      (let? values :=
         map_throwing (fun path => getField parsedRecord (FStr path)) ps in
       Return (VStr (join values separator)))%completion
  | _ => getField parsedRecord paths
  end.

(** [x || {}] *)
Definition or_empty (x : jsval) : jsval :=
  if truthy x then x else VObj [].

Definition parseRecord (record : stream_record) : completion parsed_record :=
  match dynamodb record with
  | None =>
      Throw (TypeError "Cannot read properties of undefined")
  | Some images =>
      (let? new := unmarshall (or_empty (NewImage images)) in
       let? old := unmarshall (or_empty (OldImage images)) in
       let? keys := unmarshall (Keys images) in
       Return {| pKeys := keys; pNewImage := new; pOldImage := old |})
      %completion
  end.

(** *** build-request.js *)

Definition buildDoc (parsedRecord : parsed_record) (options : options)
  : completion jsval :=
  let doc :=
    if fieldpath_truthy (pickFields options)
    then pick (VObj (pNewImage parsedRecord)) (pickFields options)
    else VObj (pNewImage parsedRecord) in
  match transformRecordHook options with
  | Some hook => hook doc (VObj (pOldImage parsedRecord))
  | None => Return doc
  end.

(** The [_type] of the object literal:
    [options.type || (options.typeField && assembleField (...))]. *)
Definition type_of_descriptor (parsedRecord : parsed_record)
    (options : options) (sep : string) : completion jsval :=
  if string_truthy (type options)
  then Return (VStr (default "" (type options)))
  else if fieldpath_truthy (typeField options)
  then assembleField parsedRecord (typeField options) (Some sep)
  else Return (fieldpath_val (typeField options)).

(** The [_index] of the object literal:
    [options.index || `${indexPrefix}${assembleField (...)}`]. *)
Definition index_of_descriptor (parsedRecord : parsed_record)
    (options : options) (sep : string) : completion jsval :=
  if string_truthy (index options)
  then Return (VStr (default "" (index options)))
  else
    (let? field :=
       assembleField parsedRecord (indexField options) (Some sep) in
     Return (VStr (default "" (indexPrefix options) ++ ToString field)))
    %completion.

(** [options.idResolver || (() => ...)], applied to the document and the
    old image. *)
Definition resolve_id (parsedRecord : parsed_record) (options : options)
    (sep : string) (doc : jsval) : completion jsval :=
  match idResolver options with
  | Some idResolver => idResolver doc (VObj (pOldImage parsedRecord))
  | None =>
      if fieldpath_truthy (idField options)
      then assembleField parsedRecord (idField options) (Some sep)
      else assembleField parsedRecord
             (FList (Object_keys (pKeys parsedRecord))) (Some sep)
  end.

(** [if (options.parentField) { actionDescriptionObj.parent = ... }] *)
Definition with_parent (parsedRecord : parsed_record) (options : options)
    (actionDescriptionObj : descriptor) : completion descriptor :=
  if string_truthy (parentField options)
  then
    (let? parent :=
       getField parsedRecord (FStr (default "" (parentField options))) in
     Return (<["parent" := parent]> actionDescriptionObj))%completion
  else Return actionDescriptionObj.

(** The version that the [version] block resolves, before validation. *)
Definition resolve_version (parsedRecord : parsed_record)
    (options : options) (doc : jsval) : completion jsval :=
  match versionResolver options with
  | Some versionResolver =>
      versionResolver doc (VObj (pOldImage parsedRecord))
  | None =>
      getField parsedRecord
        (match versionField options with
         | Some f => FStr f
         | None => FUndef
         end)
  end.

Definition version_configured (options : options) : bool :=
  configured (versionResolver options)
  || string_truthy (versionField options).

(** [if (options.versionResolver || options.versionField) { ... }] *)
Definition with_version (parsedRecord : parsed_record) (options : options)
    (doc : jsval) (actionDescriptionObj : descriptor)
  : completion descriptor :=
  if version_configured options
  then
    (let? version := resolve_version parsedRecord options doc in
     let label :=
       if string_truthy (versionField options)
       then default "" (versionField options)
       else "resolved version" in
     let? _ := validate version (VERSION label) in
     Return (<["versionType" := VStr "external"]>
               (<["version" := version]> actionDescriptionObj)))
    %completion
  else Return actionDescriptionObj.

(** The object literal [{ _index, _type, _id }] of [buildAction] and
    the statement after it:
    [if (!actionDescriptionObj._type) delete actionDescriptionObj._type]. *)
Definition literal (id _index _type : jsval) : descriptor :=
  let actionDescriptionObj : descriptor :=
    <["_id" := id]> (<["_type" := _type]> (<["_index" := _index]> ∅)) in
  (* Omit blank _type *)
  if truthy _type
  then actionDescriptionObj
  else delete "_type" actionDescriptionObj.

Definition buildAction (parsedRecord : parsed_record) (options : options)
  : completion (jsval * descriptor) :=
  let sep := default "." (separator options) in
  (let? doc := buildDoc parsedRecord options in
   let? id := resolve_id parsedRecord options sep doc in
   let? _index := index_of_descriptor parsedRecord options sep in
   let? _type := type_of_descriptor parsedRecord options sep in
   let actionDescriptionObj := literal id _index _type in
   let? actionDescriptionObj :=
     with_parent parsedRecord options actionDescriptionObj in
   let? actionDescriptionObj :=
     with_version parsedRecord options doc actionDescriptionObj in
   Return (doc, actionDescriptionObj))%completion.

(** [actionDescriptionObj.version++] on the numbers of the model.
    [buildAction] assigns [version] only after the [VERSION] schema has
    accepted it, so the operand is a number (lemma
    [buildAction_version_number]) and the last case is not taken. *)
Definition increment (version : jsval) : jsval :=
  match version with
  | VNum n => VNum (n + 1)
  | other => other
  end.

(** The [REMOVE] case before it emits:
    [if (typeof actionDescriptionObj.version !== 'undefined')
       actionDescriptionObj.version++]. *)
Definition bump_version (actionDescriptionObj : descriptor) : descriptor :=
  match actionDescriptionObj !! "version" with
  | Some version =>
      if is_undefined version
      then actionDescriptionObj
      else <["version" := increment version]> actionDescriptionObj
  | None => actionDescriptionObj
  end.

Definition event_is (record : stream_record) (name : string) : bool :=
  match eventName record with
  | Some n => String.eqb n name
  | None => false
  end.

(** The [try] block of the reducer of [buildRequest]. *)
Definition map_record (options : options) (acc : request)
    (record : stream_record) : completion request :=
  (let? parsedRecord := parseRecord record in
   let? (doc, actionDescriptionObj) := buildAction parsedRecord options in
   if truthy doc
   then
     let? (action, pushed) :=
       if event_is record "INSERT" || event_is record "MODIFY"
       then
         let action := IndexAction actionDescriptionObj in
         Return (action, [action; Document doc])
       else if event_is record "REMOVE"
       then
         let action := DeleteAction (bump_version actionDescriptionObj) in
         Return (action, [action])
       else Throw (UnknownEventNameError record) in
     Return
       {| actions := (actions acc ++ pushed)%list;
          meta :=
            (meta acc ++
               [{| meta_record := record;
                   meta_parsed := parsedRecord;
                   meta_action := action;
                   meta_document := doc |}])%list |}
   else Return acc)%completion.

(** [event.Records.reduce(reducer, acc)], the reducer with its [catch]. *)
Fixpoint reduce_records (event : event) (context : jsval)
    (options : options) (records : list stream_record) (acc : request)
  : M request :=
  match records with
  | [] => ret acc
  | record :: rest =>
      (acc' <-
         try_catch
           (lift (map_record options acc record))
           (fun err =>
              match recordErrorHook options with
              | Some hook =>
                  invoke (RecordErrorHookCall err) (hook event context err)
                  ;;; ret acc
              | None => throw err
              end) ;;
       reduce_records event context options rest acc')%handler
  end.

Definition buildRequest (event : event) (context : jsval)
    (options : options) : M request :=
  reduce_records event context options (Records event)
    {| actions := []; meta := [] |}.

(** *** index.js *)

Definition DEFAULT_RETRY_COUNT : nat := 0.

(** Modelled from the spec: [error.message] for the handler's errors.
    The files of [FieldNotFoundError] and [ValidationError] are not among
    the sources; the text for a missing field is the one the repository's
    tests expect, and a [ValidationError] carries its message. *)
Fixpoint message (error : exn) : string :=
  match error with
  | FieldNotFoundError _ path =>
      dquote ++ ToString (fieldpath_val path) ++ dquote
      ++ " field not found in record"
  | ValidationError m => m
  | UnknownEventNameError record =>
      dquote
      ++ ToString (match eventName record with
                   | Some name => VStr name
                   | None => VUndef
                   end)
      ++ dquote ++ " is an unknown event name"
  | TypeError m => m
  | Thrown payload => ToString payload
  | OtherError m => m
  | NetworkError m => m
  | AbortError originalError => message originalError
  end.

(** The loop of the retry operation's [mainError()]: an error becomes the
    main error when its message has occurred at least as often as the main
    error's. *)
Fixpoint mainError_loop (seen : list exn) (main : exn) (mainCount : nat)
    (errors : list exn) : exn :=
  match errors with
  | [] => main
  | error :: rest =>
      let count :=
        S (length
             (List.filter
                (fun e => String.eqb (message e) (message error)) seen)) in
      if (mainCount <=? count)%nat
      then mainError_loop (seen ++ [error])%list error count rest
      else mainError_loop (seen ++ [error])%list main mainCount rest
  end.

(** [operation.mainError()] for the errors of the attempts so far, which
    are never none when it is asked for. *)
Definition mainError (errors : list exn) (none : exn) : exn :=
  mainError_loop [] none 0 errors.

(** Whether p-retry goes on after an attempt has failed with [error]: not
    after a value that is no [Error], an [AbortError], or a [TypeError]
    that is no network error. *)
Definition retried (error : exn) : bool :=
  match error with
  | Thrown _ | AbortError _ | TypeError _ => false
  | _ => true
  end.

(** p-retry's [catch] of a failed attempt, with [retries] attempts left
    and the errors of the attempts before.  The delay between attempts is
    time and is not modelled. *)
Fixpoint attempts {A} (input : M A) (retries : nat) (errors : list exn)
  : M A :=
  try_catch input
    (fun error =>
       match error with
       | Thrown payload =>
           throw
             (TypeError
                ("Non-error was thrown: " ++ dquote ++ ToString payload
                 ++ dquote ++ ". You should only throw errors."))
       | AbortError originalError => throw originalError
       | TypeError _ => throw error
       | _ =>
           match retries with
           | S n => attempts input n (errors ++ [error])%list
           | O => throw (mainError (errors ++ [error])%list error)
           end
       end).

(** [retry(input, { retries })] of p-retry: the operation runs again after
    a failure that p-retry retries, up to [retries] more times, and then
    fails with the main error of the attempts. *)
Definition retry {A} (input : M A) (retries : nat) : M A :=
  attempts input retries [].

(** [{ retries: DEFAULT_RETRY_COUNT, ...options.retryOptions }.retries] *)
Definition retry_count (options : options) : nat :=
  match retryOptions options with
  | Some ro => default DEFAULT_RETRY_COUNT (retries ro)
  | None => DEFAULT_RETRY_COUNT
  end.

(** [esclient.bulk({ ...bulkOpts, body: parsedEvent.actions })] *)
Definition bulk (options : options) (parsedEvent : request) : M jsval :=
  fun tr =>
    let params :=
      {| bulk_extra := bulkOpts options; body := actions parsedEvent |} in
    invoke (BulkCall params)
      (esclient_bulk options (count_calls is_bulk tr) params) tr.

Definition empty_result : jsval :=
  VObj [("took", VNum 0); ("errors", VBool false); ("items", VArr [])].

(** [if (options.beforeHook) { options.beforeHook(event, context) }] *)
Definition run_beforeHook (options : options) (event : event)
    (context : jsval) : M unit :=
  match beforeHook options with
  | Some hook => invoke BeforeHookCall (hook event context)
  | None => ret tt
  end.

(** The submission with its retries, then [afterHook]. *)
Definition deliver (options : options) (event : event) (context : jsval)
    (parsedEvent : request) : M jsval :=
  (result <- retry (bulk options parsedEvent) (retry_count options) ;;
   match afterHook options with
   | Some hook =>
       hookResult <-
         invoke (AfterHookCall result (meta parsedEvent))
           (hook event context result (meta parsedEvent)) ;;
       ret (if is_undefined hookResult then result else hookResult)
   | None => ret result
   end)%handler.

(** The [try] block of [handle]. *)
Definition handle_try (options : options) (event : event) (context : jsval)
  : M jsval :=
  (run_beforeHook options event context ;;;
   _ <- lift (validate event EVENT) ;;
   parsedEvent <- buildRequest event context options ;;
   if (length (actions parsedEvent) =? 0)%nat
   then ret empty_result
   else deliver options event context parsedEvent)%handler.

(** The [catch] block of [handle]. *)
Definition handle_catch (options : options) (event : event)
    (context : jsval) (err : exn) : M jsval :=
  match errorHook options with
  | Some hook => invoke (ErrorHookCall err) (hook event context err)
  | None => throw err
  end.

Definition handle (options : options) (event : event) (context : jsval)
  : M jsval :=
  try_catch
    (handle_try options event context)
    (handle_catch options event context).

End Handler.

(** ** Reference instances of the libraries

    Instances to run the handler on concrete stream records: dotted paths
    into nested objects for lodash, the scalar, map and list attributes of
    the DynamoDB wire encoding with whole numbers, and an [EVENT] schema
    that asks each record for its [eventName] and its [dynamodb] images, as
    the repository's tests do. *)

Module Reference.

Definition has_key (o : obj) (k : string) : bool :=
  existsb (String.eqb k) (Object_keys o).

(** [s.split(c)] *)
Fixpoint split_on (c : Ascii.ascii) (s : string) : list string :=
  match s with
  | EmptyString => [EmptyString]
  | String a s' =>
      if Ascii.eqb a c
      then EmptyString :: split_on c s'
      else
        match split_on c s' with
        | h :: t => String a h :: t
        | [] => [String a EmptyString]
        end
  end.

Definition dot : Ascii.ascii :=
  Ascii.Ascii false true true true false true false false.

(** lodash's [castPath]: a name the object owns is one key, any other
    string is cut at its dots. *)
Definition castPath (path : fieldpath) (object : jsval) : list string :=
  match path with
  | FUndef => ["undefined"]
  | FList ps => ps
  | FStr p =>
      match object with
      | VObj o => if has_key o p then [p] else split_on dot p
      | _ => split_on dot p
      end
  end.

(** lodash's [baseGet] walk, [None] as soon as a key is missing. *)
Fixpoint walk (object : jsval) (keys : list string) : option jsval :=
  match keys with
  | [] => Some object
  | k :: ks =>
      match object with
      | VObj o => if has_key o k then walk (prop o k) ks else None
      | _ => None
      end
  end.

Definition get (object : jsval) (path : fieldpath) : jsval :=
  match castPath path object with
  | [] => VUndef
  | keys => default VUndef (walk object keys)
  end.

(** [o[k] = v], a new key going last. *)
Fixpoint assign (o : obj) (k : string) (v : jsval) : obj :=
  match o with
  | [] => [(k, v)]
  | (k', v') :: o' =>
      if String.eqb k k' then (k, v) :: o' else (k', v') :: assign o' k v
  end.

(** lodash's [baseSet] along a path of names. *)
Fixpoint set_path (o : obj) (keys : list string) (v : jsval) : obj :=
  match keys with
  | [] => o
  | [k] => assign o k v
  | k :: ks =>
      let nested := match prop o k with VObj n => n | _ => [] end in
      assign o k (VObj (set_path nested ks v))
  end.

Definition pick (object : jsval) (paths : fieldpath) : jsval :=
  let names :=
    match paths with
    | FUndef => []
    | FStr p => [p]
    | FList ps => ps
    end in
  VObj
    (fold_left
       (fun result p =>
          let keys := castPath (FStr p) object in
          match walk object keys with
          | Some v => set_path result keys v
          | None => result
          end)
       names []).

Definition digit_of (a : Ascii.ascii) : option Z :=
  let n := Z.of_nat (Ascii.nat_of_ascii a) in
  if Z.leb 48 n && Z.leb n 57 then Some (n - 48) else None.

Fixpoint parse_digits (s : string) (acc : Z) : option Z :=
  match s with
  | EmptyString => Some acc
  | String a s' =>
      match digit_of a with
      | Some d => parse_digits s' (10 * acc + d)
      | None => None
      end
  end.

Definition minus : Ascii.ascii :=
  Ascii.Ascii true false true true false true false false.

(** A whole number in decimal. *)
Definition parse_number (s : string) : option Z :=
  match s with
  | EmptyString => None
  | String a s' =>
      if Ascii.eqb a minus
      then
        match s' with
        | EmptyString => None
        | _ => Z.opp <$> parse_digits s' 0
        end
      else parse_digits s 0
  end.

(** [convertToNative] of the DynamoDB utilities on [S], [N], [BOOL],
    [NULL], [M] and [L] attributes. *)
Fixpoint convertToNative (data : jsval) : completion jsval :=
  match data with
  | VObj [(tag, payload)] =>
      if String.eqb tag "NULL" then Return VNull
      else if String.eqb tag "BOOL" then Return (VBool (truthy payload))
      else if String.eqb tag "S" then Return payload
      else if String.eqb tag "N" then
        match payload with
        | VStr s =>
            match parse_number s with
            | Some n => Return (VNum n)
            | None => Throw (TypeError "Unsupported number")
            end
        | _ => Throw (TypeError "Unsupported number")
        end
      else if String.eqb tag "L" then
        match payload with
        | VArr l =>
            match map_throwing convertToNative l with
            | Return vs => Return (VArr vs)
            | Throw e => Throw e
            end
        | _ => Throw (TypeError "Unsupported type passed: L")
        end
      else if String.eqb tag "M" then
        match payload with
        | VObj m =>
            match
              map_throwing
                (fun kv =>
                   match convertToNative (snd kv) with
                   | Return v => Return (fst kv, v)
                   | Throw e => Throw e
                   end) m
            with
            | Return o => Return (VObj o)
            | Throw e => Throw e
            end
        | _ => Throw (TypeError "Unsupported type passed: M")
        end
      else Throw (TypeError ("Unsupported type passed: " ++ tag))
  | _ => Throw (TypeError "No value defined")
  end.

(** The converter on one marshalled map. *)
Definition unmarshall (wire : jsval) : completion obj :=
  match wire with
  | VObj _ =>
      match convertToNative (VObj [("M", wire)]) with
      | Return (VObj o) => Return o
      | Return _ => Throw (TypeError "No value defined")
      | Throw e => Throw e
      end
  | _ => Throw (TypeError "Cannot convert undefined or null to object")
  end.

Definition required (i : nat) (field : string) (present : bool)
  : list string :=
  if present then []
  else [dquote ++ "Records[" ++ pretty (Z.of_nat i) ++ "]." ++ field
        ++ dquote ++ " is required"].

Fixpoint violations (i : nat) (records : list stream_record) : list string :=
  match records with
  | [] => []
  | r :: rest =>
      (required i "eventName" (configured (eventName r))
       ++ required i "dynamodb" (configured (dynamodb r))
       ++ violations (S i) rest)%list
  end.

Definition EVENT (event : event) : option string :=
  match violations 0 (Records event) with
  | [] => None
  | messages => Some (String.concat ". " messages)
  end.

End Reference.

(** ** Stream records and configurations to run the handler on *)

Module Samples.

Definition S_ (s : string) : jsval := VObj [("S", VStr s)].
Definition N_ (s : string) : jsval := VObj [("N", VStr s)].

Definition stream (name : string) (keys new old : jsval) : stream_record :=
  {| eventName := Some name;
     eventSource := Some "aws:dynamodb";
     dynamodb := Some {| Keys := keys; NewImage := new; OldImage := old |} |}.

(** Keys [{ x: 'a', y: 'b' }], inserted. *)
Definition xy_record : stream_record :=
  stream "INSERT"
    (VObj [("x", S_ "a"); ("y", S_ "b")])
    (VObj [("x", S_ "a"); ("y", S_ "b")])
    VUndef.

Definition xy_parsed : parsed_record :=
  {| pKeys := [("x", VStr "a"); ("y", VStr "b")];
     pNewImage := [("x", VStr "a"); ("y", VStr "b")];
     pOldImage := [] |}.

(** Key [{ id: 'abc' }] with a number and a blank string beside it. *)
Definition id_record : stream_record :=
  stream "INSERT"
    (VObj [("id", S_ "abc")])
    (VObj [("id", S_ "abc"); ("n", N_ "5"); ("kind", S_ "")])
    VUndef.

Definition id_parsed : parsed_record :=
  {| pKeys := [("id", VStr "abc")];
     pNewImage := [("id", VStr "abc"); ("n", VNum 5); ("kind", VStr "")];
     pOldImage := [] |}.

(** A removed item whose old image carries version 1 in [field2]. *)
Definition removed_record : stream_record :=
  stream "REMOVE"
    (VObj [("field1", S_ "k")])
    VUndef
    (VObj [("field1", S_ "k"); ("field2", N_ "1")]).

Definition removed_parsed : parsed_record :=
  {| pKeys := [("field1", VStr "k")];
     pNewImage := [];
     pOldImage := [("field1", VStr "k"); ("field2", VNum 1)] |}.

(** A record without its [eventName]. *)
Definition nameless_record : stream_record :=
  {| eventName := None;
     eventSource := Some "aws:dynamodb";
     dynamodb :=
       Some {| Keys := VObj [("id", S_ "abc")];
               NewImage := VObj [("id", S_ "abc")];
               OldImage := VUndef |} |}.

Definition resolving : nat -> bulk_params -> completion jsval :=
  fun _ _ => Return (VObj [("took", VNum 1); ("errors", VBool false)]).

Definition rejecting : nat -> bulk_params -> completion jsval :=
  fun _ _ => Throw (OtherError "indexing error").

(** [{ elasticsearch: { client }, index: 'index' }] and nothing else. *)
Definition plain (client : nat -> bulk_params -> completion jsval)
  : options :=
  {| separator := None; indexPrefix := None; pickFields := FUndef;
     transformRecordHook := None; idResolver := None; idField := FUndef;
     index := Some "index"; indexField := FUndef;
     type := None; typeField := FUndef; parentField := None;
     versionResolver := None; versionField := None;
     retryOptions := None;
     beforeHook := None; afterHook := None; errorHook := None;
     recordErrorHook := None; bulkOpts := [];
     esclient_bulk := client |}.

(** [indexField: ['x', 'y']] with the given separator. *)
Definition by_fields (sep : option string) : options :=
  {| separator := sep; indexPrefix := None; pickFields := FUndef;
     transformRecordHook := None; idResolver := None; idField := FUndef;
     index := None; indexField := FList ["x"; "y"];
     type := None; typeField := FUndef; parentField := None;
     versionResolver := None; versionField := None;
     retryOptions := None;
     beforeHook := None; afterHook := None; errorHook := None;
     recordErrorHook := None; bulkOpts := [];
     esclient_bulk := resolving |}.

(** [index: 'index'] with a [typeField] and a [versionField]. *)
Definition typed_versioned (tyField : fieldpath) (verField : option string)
  : options :=
  {| separator := None; indexPrefix := None; pickFields := FUndef;
     transformRecordHook := None; idResolver := None; idField := FUndef;
     index := Some "index"; indexField := FUndef;
     type := None; typeField := tyField; parentField := None;
     versionResolver := None; versionField := verField;
     retryOptions := None;
     beforeHook := None; afterHook := None; errorHook := None;
     recordErrorHook := None; bulkOpts := [];
     esclient_bulk := resolving |}.

(** [index: 'index'] with hooks, a retry count and a client. *)
Definition hooked
    (before : option (event -> jsval -> completion unit))
    (transform : option resolver)
    (after :
      option (event -> jsval -> jsval -> list meta_entry
              -> completion jsval))
    (error : option (event -> jsval -> exn -> completion jsval))
    (retry : option retry_options)
    (client : nat -> bulk_params -> completion jsval) : options :=
  {| separator := None; indexPrefix := None; pickFields := FUndef;
     transformRecordHook := transform; idResolver := None;
     idField := FUndef;
     index := Some "index"; indexField := FUndef;
     type := None; typeField := FUndef; parentField := None;
     versionResolver := None; versionField := None;
     retryOptions := retry;
     beforeHook := before; afterHook := after; errorHook := error;
     recordErrorHook := None; bulkOpts := [];
     esclient_bulk := client |}.

Definition handled : event -> jsval -> exn -> completion jsval :=
  fun _ _ _ => Return (VStr "handled").

Definition failing_before : event -> jsval -> completion unit :=
  fun _ _ => Throw (Thrown (VStr "before failed")).

Definition skipping : resolver := fun _ _ => Return VNull.

Definition overriding
  : event -> jsval -> jsval -> list meta_entry -> completion jsval :=
  fun _ _ _ _ => Return (VStr "after").

Definition no_delays : delay_options :=
  {| factor := None; minTimeout := None; maxTimeout := None;
     randomize := None |}.

Definition twice : retry_options :=
  {| retries := Some 2%nat; backoff := no_delays |}.

(** An attribute of the descriptor that [buildAction] returns. *)
Definition attribute (k : string) (built : completion (jsval * descriptor))
  : option jsval :=
  match built with
  | Return (_, d) => d !! k
  | Throw _ => None
  end.

(** [buildAction] on the reference libraries. *)
Definition build (r : parsed_record) (options : options)
  : completion (jsval * descriptor) :=
  buildAction Reference.get Reference.pick r options.

(** The handler on the reference libraries. *)
Definition run (options : options) (records : list stream_record)
  : completion jsval * list call :=
  handle Reference.get Reference.pick Reference.unmarshall Reference.EVENT
    options {| Records := records |} VNull [].

End Samples.

(** ** The request as a whole, and the exported function *)

(** The entries of the bulk body that one metadata entry stands for: its
    action, and for an index action the document after it. *)
Definition items_of (m : meta_entry) : list item :=
  match meta_action m with
  | IndexAction d => [IndexAction d; Document (meta_document m)]
  | a => [a]
  end.

Definition is_action (i : item) : bool :=
  match i with
  | Document _ => false
  | _ => true
  end.

Definition no_request : request := {| actions := []; meta := [] |}.

(** [a] with the actions and metadata of [b] pushed after its own. *)
Definition pushed_after (a b : request) : request :=
  {| actions := (actions a ++ actions b)%list;
     meta := (meta a ++ meta b)%list |}.

(** What the [try] block of the reducer throws for one record, if it
    throws. *)
Definition failure (get pick : jsval -> fieldpath -> jsval)
    (unmarshall : jsval -> completion obj) (options : options)
    (record : stream_record) : option exn :=
  match map_record get pick unmarshall options no_request record with
  | Return _ => None
  | Throw e => Some e
  end.

Definition maps (get pick : jsval -> fieldpath -> jsval)
    (unmarshall : jsval -> completion obj) (options : options)
    (record : stream_record) : bool :=
  match failure get pick unmarshall options record with
  | None => true
  | Some _ => false
  end.

(** The arguments of a Node callback: [callback(null, res)] or
    [callback(err)]. *)
Inductive callback_args : Type :=
| CallbackResult (res : jsval)
| CallbackError (err : exn).

(** The function that the module's factory returns:
    [(event, context, callback) => {
       if (callback) {
         handle(event, context).then(res => callback(null, res)).catch(callback)
       } else { return handle(event, context) } }].
    The result is the outcome of the promise it returns ([None] when it
    returns nothing), the calls of [handle], and the calls of the callback
    in order. *)
Definition handler (get pick : jsval -> fieldpath -> jsval)
    (unmarshall : jsval -> completion obj) (EVENT : event -> option string)
    (options : options) (event : event) (context : jsval)
    (callback : option (callback_args -> completion unit))
    (tr : list call)
  : option (completion jsval) * list call * list callback_args :=
  let (outcome, tr') :=
    handle get pick unmarshall EVENT options event context tr in
  match callback with
  | Some callback =>
      match outcome with
      | Return res =>
          match callback (CallbackResult res) with
          | Return _ => (None, tr', [CallbackResult res])
          | Throw e =>
              let _ := callback (CallbackError e) in
              (None, tr', [CallbackResult res; CallbackError e])
          end
      | Throw err =>
          let _ := callback (CallbackError err) in
          (None, tr', [CallbackError err])
      end
  | None => (Some outcome, tr', [])
  end.

(** ** More configurations and records to run the code on *)

Module Cases.

(** [{ ...o, field: v }] for the fields the cases below set. *)

Definition set_indexPrefix
    (v : option string)
    (o : options) : options :=
  {| separator := separator o;
     indexPrefix := v;
     pickFields := pickFields o;
     transformRecordHook := transformRecordHook o;
     idResolver := idResolver o;
     idField := idField o;
     index := index o;
     indexField := indexField o;
     type := type o;
     typeField := typeField o;
     parentField := parentField o;
     versionResolver := versionResolver o;
     versionField := versionField o;
     retryOptions := retryOptions o;
     beforeHook := beforeHook o;
     afterHook := afterHook o;
     errorHook := errorHook o;
     recordErrorHook := recordErrorHook o;
     bulkOpts := bulkOpts o;
     esclient_bulk := esclient_bulk o |}.

Definition set_pickFields
    (v : fieldpath)
    (o : options) : options :=
  {| separator := separator o;
     indexPrefix := indexPrefix o;
     pickFields := v;
     transformRecordHook := transformRecordHook o;
     idResolver := idResolver o;
     idField := idField o;
     index := index o;
     indexField := indexField o;
     type := type o;
     typeField := typeField o;
     parentField := parentField o;
     versionResolver := versionResolver o;
     versionField := versionField o;
     retryOptions := retryOptions o;
     beforeHook := beforeHook o;
     afterHook := afterHook o;
     errorHook := errorHook o;
     recordErrorHook := recordErrorHook o;
     bulkOpts := bulkOpts o;
     esclient_bulk := esclient_bulk o |}.

Definition set_idResolver
    (v : option resolver)
    (o : options) : options :=
  {| separator := separator o;
     indexPrefix := indexPrefix o;
     pickFields := pickFields o;
     transformRecordHook := transformRecordHook o;
     idResolver := v;
     idField := idField o;
     index := index o;
     indexField := indexField o;
     type := type o;
     typeField := typeField o;
     parentField := parentField o;
     versionResolver := versionResolver o;
     versionField := versionField o;
     retryOptions := retryOptions o;
     beforeHook := beforeHook o;
     afterHook := afterHook o;
     errorHook := errorHook o;
     recordErrorHook := recordErrorHook o;
     bulkOpts := bulkOpts o;
     esclient_bulk := esclient_bulk o |}.

Definition set_idField
    (v : fieldpath)
    (o : options) : options :=
  {| separator := separator o;
     indexPrefix := indexPrefix o;
     pickFields := pickFields o;
     transformRecordHook := transformRecordHook o;
     idResolver := idResolver o;
     idField := v;
     index := index o;
     indexField := indexField o;
     type := type o;
     typeField := typeField o;
     parentField := parentField o;
     versionResolver := versionResolver o;
     versionField := versionField o;
     retryOptions := retryOptions o;
     beforeHook := beforeHook o;
     afterHook := afterHook o;
     errorHook := errorHook o;
     recordErrorHook := recordErrorHook o;
     bulkOpts := bulkOpts o;
     esclient_bulk := esclient_bulk o |}.

Definition set_index
    (v : option string)
    (o : options) : options :=
  {| separator := separator o;
     indexPrefix := indexPrefix o;
     pickFields := pickFields o;
     transformRecordHook := transformRecordHook o;
     idResolver := idResolver o;
     idField := idField o;
     index := v;
     indexField := indexField o;
     type := type o;
     typeField := typeField o;
     parentField := parentField o;
     versionResolver := versionResolver o;
     versionField := versionField o;
     retryOptions := retryOptions o;
     beforeHook := beforeHook o;
     afterHook := afterHook o;
     errorHook := errorHook o;
     recordErrorHook := recordErrorHook o;
     bulkOpts := bulkOpts o;
     esclient_bulk := esclient_bulk o |}.

Definition set_indexField
    (v : fieldpath)
    (o : options) : options :=
  {| separator := separator o;
     indexPrefix := indexPrefix o;
     pickFields := pickFields o;
     transformRecordHook := transformRecordHook o;
     idResolver := idResolver o;
     idField := idField o;
     index := index o;
     indexField := v;
     type := type o;
     typeField := typeField o;
     parentField := parentField o;
     versionResolver := versionResolver o;
     versionField := versionField o;
     retryOptions := retryOptions o;
     beforeHook := beforeHook o;
     afterHook := afterHook o;
     errorHook := errorHook o;
     recordErrorHook := recordErrorHook o;
     bulkOpts := bulkOpts o;
     esclient_bulk := esclient_bulk o |}.

Definition set_parentField
    (v : option string)
    (o : options) : options :=
  {| separator := separator o;
     indexPrefix := indexPrefix o;
     pickFields := pickFields o;
     transformRecordHook := transformRecordHook o;
     idResolver := idResolver o;
     idField := idField o;
     index := index o;
     indexField := indexField o;
     type := type o;
     typeField := typeField o;
     parentField := v;
     versionResolver := versionResolver o;
     versionField := versionField o;
     retryOptions := retryOptions o;
     beforeHook := beforeHook o;
     afterHook := afterHook o;
     errorHook := errorHook o;
     recordErrorHook := recordErrorHook o;
     bulkOpts := bulkOpts o;
     esclient_bulk := esclient_bulk o |}.

Definition set_versionResolver
    (v : option resolver)
    (o : options) : options :=
  {| separator := separator o;
     indexPrefix := indexPrefix o;
     pickFields := pickFields o;
     transformRecordHook := transformRecordHook o;
     idResolver := idResolver o;
     idField := idField o;
     index := index o;
     indexField := indexField o;
     type := type o;
     typeField := typeField o;
     parentField := parentField o;
     versionResolver := v;
     versionField := versionField o;
     retryOptions := retryOptions o;
     beforeHook := beforeHook o;
     afterHook := afterHook o;
     errorHook := errorHook o;
     recordErrorHook := recordErrorHook o;
     bulkOpts := bulkOpts o;
     esclient_bulk := esclient_bulk o |}.

Definition set_versionField
    (v : option string)
    (o : options) : options :=
  {| separator := separator o;
     indexPrefix := indexPrefix o;
     pickFields := pickFields o;
     transformRecordHook := transformRecordHook o;
     idResolver := idResolver o;
     idField := idField o;
     index := index o;
     indexField := indexField o;
     type := type o;
     typeField := typeField o;
     parentField := parentField o;
     versionResolver := versionResolver o;
     versionField := v;
     retryOptions := retryOptions o;
     beforeHook := beforeHook o;
     afterHook := afterHook o;
     errorHook := errorHook o;
     recordErrorHook := recordErrorHook o;
     bulkOpts := bulkOpts o;
     esclient_bulk := esclient_bulk o |}.



Definition set_errorHook
    (v : option (event -> jsval -> exn -> completion jsval))
    (o : options) : options :=
  {| separator := separator o;
     indexPrefix := indexPrefix o;
     pickFields := pickFields o;
     transformRecordHook := transformRecordHook o;
     idResolver := idResolver o;
     idField := idField o;
     index := index o;
     indexField := indexField o;
     type := type o;
     typeField := typeField o;
     parentField := parentField o;
     versionResolver := versionResolver o;
     versionField := versionField o;
     retryOptions := retryOptions o;
     beforeHook := beforeHook o;
     afterHook := afterHook o;
     errorHook := v;
     recordErrorHook := recordErrorHook o;
     bulkOpts := bulkOpts o;
     esclient_bulk := esclient_bulk o |}.

Definition set_recordErrorHook
    (v : option (event -> jsval -> exn -> completion unit))
    (o : options) : options :=
  {| separator := separator o;
     indexPrefix := indexPrefix o;
     pickFields := pickFields o;
     transformRecordHook := transformRecordHook o;
     idResolver := idResolver o;
     idField := idField o;
     index := index o;
     indexField := indexField o;
     type := type o;
     typeField := typeField o;
     parentField := parentField o;
     versionResolver := versionResolver o;
     versionField := versionField o;
     retryOptions := retryOptions o;
     beforeHook := beforeHook o;
     afterHook := afterHook o;
     errorHook := errorHook o;
     recordErrorHook := v;
     bulkOpts := bulkOpts o;
     esclient_bulk := esclient_bulk o |}.

Definition set_bulkOpts
    (v : obj)
    (o : options) : options :=
  {| separator := separator o;
     indexPrefix := indexPrefix o;
     pickFields := pickFields o;
     transformRecordHook := transformRecordHook o;
     idResolver := idResolver o;
     idField := idField o;
     index := index o;
     indexField := indexField o;
     type := type o;
     typeField := typeField o;
     parentField := parentField o;
     versionResolver := versionResolver o;
     versionField := versionField o;
     retryOptions := retryOptions o;
     beforeHook := beforeHook o;
     afterHook := afterHook o;
     errorHook := errorHook o;
     recordErrorHook := recordErrorHook o;
     bulkOpts := v;
     esclient_bulk := esclient_bulk o |}.


(** [{ elasticsearch: { client }, index: 'index' }] with a client that
    resolves. *)
Definition base : options := Samples.plain Samples.resolving.

(** A record of an event name that the handler does not know. *)
Definition renamed_record : stream_record :=
  Samples.stream "RENAME"
    (VObj [("id", Samples.S_ "abc")])
    (VObj [("id", Samples.S_ "abc")])
    VUndef.

(** A hook that returns nothing. *)
Definition noting : event -> jsval -> exn -> completion unit :=
  fun _ _ _ => Return tt.


(** An item with a parent and a version beside its key. *)
Definition child_parsed : parsed_record :=
  {| pKeys := [("id", VStr "abc")];
     pNewImage :=
       [("id", VStr "abc"); ("owner", VStr "p1"); ("rev", VNum 7);
        ("shard", VNum 3)];
     pOldImage := [("id", VStr "abc")] |}.

Definition child_record : stream_record :=
  Samples.stream "MODIFY"
    (VObj [("id", Samples.S_ "abc")])
    (VObj [("id", Samples.S_ "abc"); ("owner", Samples.S_ "p1");
           ("rev", Samples.N_ "7"); ("shard", Samples.N_ "3")])
    (VObj [("id", Samples.S_ "abc")]).

(** A client that fails every call on a mistake in its code. *)
Definition mistaken : nat -> bulk_params -> completion jsval :=
  fun _ _ => Throw (TypeError "boom").

(** A client that fails with errors of two messages. *)
Definition flaky : nat -> bulk_params -> completion jsval :=
  fun n _ =>
    if (n =? 2)%nat
    then Throw (OtherError "timeout")
    else Throw (OtherError "indexing error").


(** Hooks that return nothing, and an [afterHook] that throws. *)
Definition passing : event -> jsval -> completion unit :=
  fun _ _ => Return tt.

Definition failing_after
  : event -> jsval -> jsval -> list meta_entry -> completion jsval :=
  fun _ _ _ _ => Throw (Thrown (VStr "after failed")).


(** Every hook configured, the [afterHook] one that throws. *)
Definition all_hooks : options :=
  set_recordErrorHook (Some noting)
    (Samples.hooked (Some passing) None (Some failing_after)
       (Some Samples.handled) None Samples.resolving).

End Cases.

(** * Properties *)

(** ** Values and completions *)

Lemma is_undefined_true (v : jsval) : is_undefined v = true <-> v = VUndef.
Proof. destruct v; simpl; split; congruence. Qed.

Lemma is_undefined_false (v : jsval) : is_undefined v = false <-> v <> VUndef.
Proof. destruct v; simpl; split; congruence. Qed.

Lemma cbind_Return {A B} (c : completion A) (k : A -> completion B) (b : B) :
  cbind c k = Return b <-> exists a, c = Return a /\ k a = Return b.
Proof.
  destruct c as [a|e]; simpl; split.
  - intros H; exists a; auto.
  - intros (a' & Ha & Hk); congruence.
  - discriminate.
  - intros (a' & Ha & _); discriminate.
Qed.

Lemma map_throwing_Return {A B} (f : A -> completion B) (l : list A)
    (bs : list B) :
  map_throwing f l = Return bs <-> Forall2 (fun a b => f a = Return b) l bs.
Proof.
  revert bs; induction l as [|a l IH]; intros bs; simpl.
  - split.
    + intros H; injection H as <-; constructor.
    + intros H; inversion H; reflexivity.
  - destruct (f a) as [b|e] eqn:Hfa.
    + destruct (map_throwing f l) as [bs'|e] eqn:Hrest.
      * split.
        -- intros H; injection H as <-.
           constructor; [assumption | apply IH; reflexivity].
        -- intros H; inversion H as [|? b0 ? bs0 Hb Hbs]; subst.
           apply IH in Hbs. congruence.
      * split; [discriminate|].
        intros H; inversion H as [|? b0 ? bs0 Hb Hbs]; subst.
        apply IH in Hbs. discriminate.
    + split; [discriminate|].
      intros H; inversion H; congruence.
Qed.

Lemma map_throwing_Throw {A B} (f : A -> completion B) (l : list A)
    (e : exn) :
  map_throwing f l = Throw e ->
  exists pre a post,
    l = (pre ++ a :: post)%list /\
    Forall (fun x => exists b, f x = Return b) pre /\
    f a = Throw e.
Proof.
  induction l as [|a l IH]; simpl; [discriminate|].
  destruct (f a) as [b|e'] eqn:Hfa.
  - destruct (map_throwing f l) as [bs|e''] eqn:Hrest; [discriminate|].
    intros H; injection H as ->.
    destruct (IH eq_refl) as (pre & x & post & -> & Hpre & Hx).
    exists (a :: pre), x, post; repeat split; auto.
    constructor; eauto.
  - intros H; injection H as ->.
    exists [], a, l; repeat split; auto.
Qed.

(** ** utils.js *)

Section Utils.

Variable get : jsval -> fieldpath -> jsval.

Lemma getField_unfold (r : parsed_record) (path : fieldpath) :
  getField get r path =
    let k := get (VObj (pKeys r)) path in
    let n := get (VObj (pNewImage r)) path in
    let o := get (VObj (pOldImage r)) path in
    let value :=
      if is_undefined k
      then (if is_undefined n then o else n)
      else k in
    if is_undefined value
    then Throw (FieldNotFoundError r path)
    else Return value.
Proof.
  unfold getField; simpl.
  destruct (is_undefined (get (VObj (pKeys r)) path)) eqn:Hk.
  - destruct (is_undefined (get (VObj (pNewImage r)) path)) eqn:Hn;
      reflexivity.
  - cbv zeta. rewrite !Hk. reflexivity.
Qed.

Lemma getField_defined (r : parsed_record) (path : fieldpath) (v : jsval) :
  getField get r path = Return v -> v <> VUndef.
Proof.
  unfold getField.
  destruct (is_undefined _) eqn:Hu; [discriminate|].
  intros H; injection H as <-. now apply is_undefined_false.
Qed.

End Utils.

(** C8. [getField] returns the first defined value that the path has in
    [Keys], then [NewImage], then [OldImage], and throws
    [FieldNotFoundError] with the record and the path exactly when the path
    is undefined in all three; it throws nothing else. *)
Theorem getField_search_order
    (get : jsval -> fieldpath -> jsval) (r : parsed_record)
    (path : fieldpath) :
  let k := get (VObj (pKeys r)) path in
  let n := get (VObj (pNewImage r)) path in
  let o := get (VObj (pOldImage r)) path in
  (k <> VUndef -> getField get r path = Return k) /\
  (k = VUndef -> n <> VUndef -> getField get r path = Return n) /\
  (k = VUndef -> n = VUndef -> o <> VUndef ->
   getField get r path = Return o) /\
  (getField get r path = Throw (FieldNotFoundError r path) <->
   k = VUndef /\ n = VUndef /\ o = VUndef) /\
  (forall e, getField get r path = Throw e ->
             e = FieldNotFoundError r path).
Proof.
  intros k n o. rewrite getField_unfold. fold k n o. cbv zeta.
  destruct (is_undefined k) eqn:Hk.
  - apply is_undefined_true in Hk as Hk'.
    destruct (is_undefined n) eqn:Hn.
    + apply is_undefined_true in Hn as Hn'.
      destruct (is_undefined o) eqn:Ho.
      * apply is_undefined_true in Ho as Ho'.
        repeat split; try congruence.
      * apply is_undefined_false in Ho as Ho'.
        repeat split; try congruence; try discriminate.
        intros (_ & _ & H); congruence.
    + apply is_undefined_false in Hn as Hn'. rewrite Hn.
      repeat split; try congruence; try discriminate.
      intros (_ & H & _); congruence.
  - apply is_undefined_false in Hk as Hk'. rewrite Hk.
    repeat split; try congruence; try discriminate.
    intros (H & _); congruence.
Qed.

(** ** build-request.js: the action descriptor *)

Section Descriptor.

Variable get : jsval -> fieldpath -> jsval.
Variable pick : jsval -> fieldpath -> jsval.

Lemma with_parent_lookup (r : parsed_record) (opts : options)
    (d d' : descriptor) (k : string) :
  with_parent get r opts d = Return d' ->
  k <> "parent" ->
  d' !! k = d !! k.
Proof.
  unfold with_parent. intros H Hk.
  destruct (string_truthy (parentField opts)).
  - apply cbind_Return in H as (p & _ & H). injection H as <-.
    rewrite lookup_insert_ne; auto.
  - injection H as <-; reflexivity.
Qed.

Lemma with_version_unconfigured (r : parsed_record) (opts : options)
    (doc : jsval) (d d' : descriptor) :
  version_configured opts = false ->
  with_version get r opts doc d = Return d' ->
  d' = d.
Proof.
  unfold with_version. intros ->. congruence.
Qed.

Lemma with_version_configured (r : parsed_record) (opts : options)
    (doc : jsval) (d d' : descriptor) :
  version_configured opts = true ->
  with_version get r opts doc d = Return d' ->
  exists n,
    resolve_version get r opts doc = Return (VNum n) /\
    d' = <["versionType" := VStr "external"]> (<["version" := VNum n]> d).
Proof.
  unfold with_version. intros -> H.
  apply cbind_Return in H as (version & Hres & H).
  apply cbind_Return in H as (checked & Hval & H).
  injection H as <-.
  unfold validate, VERSION in Hval.
  destruct version; try discriminate.
  eauto.
Qed.

Lemma with_version_lookup (r : parsed_record) (opts : options)
    (doc : jsval) (d d' : descriptor) (k : string) :
  with_version get r opts doc d = Return d' ->
  k <> "version" -> k <> "versionType" ->
  d' !! k = d !! k.
Proof.
  intros H Hv Hvt.
  destruct (version_configured opts) eqn:Hc.
  - destruct (with_version_configured _ _ _ _ _ Hc H) as (n & _ & ->).
    rewrite !lookup_insert_ne; auto.
  - now rewrite (with_version_unconfigured _ _ _ _ _ Hc H).
Qed.

Lemma buildAction_inv (r : parsed_record) (opts : options) (doc : jsval)
    (d : descriptor) :
  buildAction get pick r opts = Return (doc, d) ->
  let sep := default "." (separator opts) in
  exists id _index _type d1,
    buildDoc pick r opts = Return doc /\
    resolve_id get r opts sep doc = Return id /\
    index_of_descriptor get r opts sep = Return _index /\
    type_of_descriptor get r opts sep = Return _type /\
    with_parent get r opts (literal id _index _type) = Return d1 /\
    with_version get r opts doc d1 = Return d.
Proof.
  intros H. cbv zeta. unfold buildAction in H. cbv zeta in H.
  apply cbind_Return in H as (doc' & Hdoc & H).
  apply cbind_Return in H as (id & Hid & H).
  apply cbind_Return in H as (_index & Hindex & H).
  apply cbind_Return in H as (_type & Htype & H).
  apply cbind_Return in H as (d1 & Hparent & H).
  apply cbind_Return in H as (d2 & Hversion & H).
  inversion H; subst.
  exists id, _index, _type, d1. repeat split; assumption.
Qed.

Lemma literal_id (id _index _type : jsval) :
  literal id _index _type !! "_id" = Some id.
Proof.
  unfold literal. destruct (truthy _type).
  - now rewrite lookup_insert_eq.
  - rewrite lookup_delete_ne by discriminate. now rewrite lookup_insert_eq.
Qed.

Lemma literal_index (id _index _type : jsval) :
  literal id _index _type !! "_index" = Some _index.
Proof.
  unfold literal. destruct (truthy _type).
  - rewrite !lookup_insert_ne by discriminate. now rewrite lookup_insert_eq.
  - rewrite lookup_delete_ne by discriminate.
    rewrite !lookup_insert_ne by discriminate. now rewrite lookup_insert_eq.
Qed.

Lemma literal_type (id _index _type : jsval) :
  literal id _index _type !! "_type" =
    if truthy _type then Some _type else None.
Proof.
  unfold literal. destruct (truthy _type).
  - rewrite lookup_insert_ne by discriminate. now rewrite lookup_insert_eq.
  - now rewrite lookup_delete_eq.
Qed.

(** The attributes of the literal survive the [parent] and [version]
    blocks. *)
Lemma buildAction_lookup (r : parsed_record) (opts : options)
    (doc : jsval) (d : descriptor) :
  buildAction get pick r opts = Return (doc, d) ->
  let sep := default "." (separator opts) in
  exists id _index _type,
    resolve_id get r opts sep doc = Return id /\
    index_of_descriptor get r opts sep = Return _index /\
    type_of_descriptor get r opts sep = Return _type /\
    d !! "_id" = Some id /\
    d !! "_index" = Some _index /\
    d !! "_type" = (if truthy _type then Some _type else None).
Proof.
  intros H. cbv zeta.
  destruct (buildAction_inv _ _ _ _ H)
    as (id & _index & _type & d1 & _ & Hid & Hindex & Htype & Hp & Hv).
  exists id, _index, _type. repeat split; auto.
  - rewrite (with_version_lookup _ _ _ _ _ _ Hv) by discriminate.
    rewrite (with_parent_lookup _ _ _ _ _ Hp) by discriminate.
    apply literal_id.
  - rewrite (with_version_lookup _ _ _ _ _ _ Hv) by discriminate.
    rewrite (with_parent_lookup _ _ _ _ _ Hp) by discriminate.
    apply literal_index.
  - rewrite (with_version_lookup _ _ _ _ _ _ Hv) by discriminate.
    rewrite (with_parent_lookup _ _ _ _ _ Hp) by discriminate.
    apply literal_type.
Qed.

(** A version is stored only as a number. *)
Lemma buildAction_version_number (r : parsed_record) (opts : options)
    (doc : jsval) (d : descriptor) (v : jsval) :
  buildAction get pick r opts = Return (doc, d) ->
  d !! "version" = Some v ->
  exists n, v = VNum n.
Proof.
  intros H Hv.
  destruct (buildAction_inv _ _ _ _ H)
    as (id & _index & _type & d1 & _ & _ & _ & _ & Hp & Hver).
  destruct (version_configured opts) eqn:Hc.
  - destruct (with_version_configured _ _ _ _ _ Hc Hver) as (n & _ & ->).
    rewrite lookup_insert_ne in Hv by discriminate.
    rewrite lookup_insert_eq in Hv. injection Hv as <-. eauto.
  - rewrite (with_version_unconfigured _ _ _ _ _ Hc Hver) in Hv.
    rewrite (with_parent_lookup _ _ _ _ _ Hp) in Hv by discriminate.
    unfold literal in Hv. destruct (truthy _type).
    + rewrite !lookup_insert_ne in Hv by discriminate.
      rewrite lookup_empty in Hv. discriminate.
    + rewrite lookup_delete_ne in Hv by discriminate.
      rewrite !lookup_insert_ne in Hv by discriminate.
      rewrite lookup_empty in Hv. discriminate.
Qed.

End Descriptor.

(** ** The reference libraries on the sample records *)

Example parse_xy_record :
  parseRecord Reference.unmarshall Samples.xy_record
  = Return Samples.xy_parsed.
Proof. reflexivity. Qed.

Example parse_id_record :
  parseRecord Reference.unmarshall Samples.id_record
  = Return Samples.id_parsed.
Proof. reflexivity. Qed.

Example parse_removed_record :
  parseRecord Reference.unmarshall Samples.removed_record
  = Return Samples.removed_parsed.
Proof. reflexivity. Qed.

Example pick_dotted_paths :
  Reference.pick
    (VObj [("a", VNum 1); ("b", VObj [("c", VNum 2); ("d", VNum 3)]);
           ("e", VNum 4)])
    (FList ["a"; "b.c"])
  = VObj [("a", VNum 1); ("b", VObj [("c", VNum 2)])].
Proof. reflexivity. Qed.

Lemma has_key_elem (o : obj) (k : string) :
  Reference.has_key o k = true <-> k ∈ Object_keys o.
Proof.
  unfold Reference.has_key. rewrite existsb_exists. split.
  - intros (x & Hin & Heq). apply String.eqb_eq in Heq as ->.
    now apply list_elem_of_In.
  - intros Hin. exists k. split; [now apply list_elem_of_In|].
    apply String.eqb_refl.
Qed.

(** lodash reads a name that the object owns as one key. *)
Lemma reference_get_own (o : obj) (k : string) :
  k ∈ Object_keys o -> Reference.get (VObj o) (FStr k) = prop o k.
Proof.
  intros Hin. apply has_key_elem in Hin.
  unfold Reference.get, Reference.castPath. rewrite Hin. simpl.
  now rewrite Hin.
Qed.

(** ** assembleField *)

(** C9. Given a list of paths, [assembleField] resolves each path on its
    own and joins the values with the separator, which may be empty; the
    first path that does not resolve fails the whole.  Given one path it
    returns the value of [getField] as it is, a number staying a number.
    [buildAction] passes the configured separator, or a dot when none is
    configured: with [indexField: ['x', 'y']] on keys [{x: 'a', y: 'b'}] the
    index is [ab] for the empty separator and [a.b] by default. *)
Theorem assembleField_joins_paths
    (get : jsval -> fieldpath -> jsval) (r : parsed_record) (sep : string) :
  (forall ps vs,
      Forall2 (fun p v => getField get r (FStr p) = Return v) ps vs ->
      assembleField get r (FList ps) (Some sep)
      = Return (VStr (String.concat sep (map join_elem vs)))) /\
  (forall ps e,
      assembleField get r (FList ps) (Some sep) = Throw e ->
      exists pre p post,
        ps = (pre ++ p :: post)%list /\
        Forall (fun q => exists v, getField get r (FStr q) = Return v) pre /\
        getField get r (FStr p) = Throw e) /\
  (forall p,
      assembleField get r (FStr p) (Some sep) = getField get r (FStr p)) /\
  (forall pick opts doc d ps vs,
      string_truthy (index opts) = false ->
      indexField opts = FList ps ->
      Forall2 (fun p v => getField get r (FStr p) = Return v) ps vs ->
      buildAction get pick r opts = Return (doc, d) ->
      d !! "_index"
      = Some (VStr (default "" (indexPrefix opts)
                    ++ String.concat (default "." (separator opts))
                         (map join_elem vs)))) /\
  Samples.attribute "_index"
    (Samples.build Samples.xy_parsed (Samples.by_fields (Some "")))
  = Some (VStr "ab") /\
  Samples.attribute "_index"
    (Samples.build Samples.xy_parsed (Samples.by_fields None))
  = Some (VStr "a.b") /\
  assembleField Reference.get Samples.id_parsed (FStr "n") (Some sep)
  = Return (VNum 5) /\
  assembleField Reference.get Samples.id_parsed (FList ["n"]) (Some sep)
  = Return (VStr "5").
Proof.
  assert (Hlist : forall ps vs s,
             Forall2 (fun p v => getField get r (FStr p) = Return v) ps vs ->
             assembleField get r (FList ps) (Some s)
             = Return (VStr (String.concat s (map join_elem vs)))).
  { intros ps vs s H. unfold assembleField.
    apply map_throwing_Return in H. rewrite H. reflexivity. }
  split; [intros ps vs; apply Hlist|].
  split.
  { intros ps e H. unfold assembleField in H.
    destruct (map_throwing _ ps) as [vs|e'] eqn:Hm; [discriminate|].
    simpl in H. injection H as ->.
    apply map_throwing_Throw in Hm. exact Hm. }
  split; [reflexivity|].
  split.
  { intros pick opts doc d ps vs Hidx Hfield Hres Hbuild.
    destruct (buildAction_lookup _ _ _ _ _ _ Hbuild)
      as (id & _index & _type & _ & Hindex & _ & _ & Hd & _).
    rewrite Hd. f_equal.
    unfold index_of_descriptor in Hindex.
    rewrite Hidx, Hfield, (Hlist _ _ _ Hres) in Hindex.
    simpl in Hindex. congruence. }
  repeat split; reflexivity.
Qed.

(** ** The document id *)

Lemma prop_NoDup (o : obj) (k : string) (v : jsval) :
  NoDup (Object_keys o) -> (k, v) ∈ o -> prop o k = v.
Proof.
  induction o as [|[k' v'] o IH]; simpl; intros Hnd Hin.
  - inversion Hin.
  - apply NoDup_cons in Hnd as [Hnotin Hnd].
    apply elem_of_cons in Hin as [Heq|Hin].
    + injection Heq as -> ->. now rewrite String.eqb_refl.
    + destruct (String.eqb_spec k k') as [->|Hne].
      * exfalso. apply Hnotin. unfold Object_keys.
        apply list_elem_of_fmap. exists (k', v). auto.
      * apply IH; assumption.
Qed.

(** With the keys as paths, [getField] finds each key's own value. *)
Lemma key_values_resolve
    (get : jsval -> fieldpath -> jsval) (r : parsed_record) :
  (forall o k, k ∈ Object_keys o -> get (VObj o) (FStr k) = prop o k) ->
  NoDup (Object_keys (pKeys r)) ->
  Forall (fun kv => snd kv <> VUndef) (pKeys r) ->
  Forall2 (fun p v => getField get r (FStr p) = Return v)
    (Object_keys (pKeys r)) (map snd (pKeys r)).
Proof.
  intros Hown Hnd Hdef.
  assert (Hall : forall kv, kv ∈ pKeys r ->
                   getField get r (FStr (fst kv)) = Return (snd kv)).
  { intros [k v] Hin. simpl.
    rewrite getField_unfold. cbv zeta.
    rewrite Hown
      by (unfold Object_keys; apply list_elem_of_fmap; exists (k, v); auto).
    rewrite (prop_NoDup _ _ _ Hnd Hin).
    rewrite Forall_forall in Hdef. specialize (Hdef _ Hin). simpl in Hdef.
    apply is_undefined_false in Hdef. now rewrite !Hdef. }
  unfold Object_keys. clear Hnd Hdef.
  induction (pKeys r) as [|kv o IH]; simpl; constructor.
  - apply Hall. left.
  - apply IH. intros kv' Hin. apply Hall. now right.
Qed.

(** C1, as the specification words it, fails: for the key [{ id: 'abc' }]
    the id is the key's value [abc], not its name [id]. *)
Lemma id_is_not_the_key_names :
  ~ (forall (r : parsed_record) (opts : options) (doc : jsval)
            (d : descriptor),
        idResolver opts = None ->
        fieldpath_truthy (idField opts) = false ->
        buildAction Reference.get Reference.pick r opts = Return (doc, d) ->
        d !! "_id"
        = Some (VStr (String.concat (default "." (separator opts))
                        (Object_keys (pKeys r))))).
Proof.
  intros H.
  destruct (Samples.build Samples.id_parsed (Samples.plain Samples.resolving))
    as [[doc d]|e] eqn:Hb; [|discriminate Hb].
  specialize (H Samples.id_parsed (Samples.plain Samples.resolving) doc d
                eq_refl eq_refl Hb).
  assert (Hid : Samples.attribute "_id"
                  (Samples.build Samples.id_parsed
                     (Samples.plain Samples.resolving))
                = Some (VStr "abc")) by reflexivity.
  rewrite Hb in Hid. simpl in Hid, H. rewrite H in Hid. discriminate Hid.
Qed.

(** C1, amended. With neither [idField] nor [idResolver], the id of the
    descriptor is the values of the [Keys] fields, in the order of the
    keys, each as [join] prints it, joined by the configured separator (a
    dot by default). *)
Theorem id_joins_the_key_values
    (get pick : jsval -> fieldpath -> jsval) (r : parsed_record)
    (opts : options) (doc : jsval) (d : descriptor) :
  (forall o k, k ∈ Object_keys o -> get (VObj o) (FStr k) = prop o k) ->
  NoDup (Object_keys (pKeys r)) ->
  Forall (fun kv => snd kv <> VUndef) (pKeys r) ->
  idResolver opts = None ->
  fieldpath_truthy (idField opts) = false ->
  buildAction get pick r opts = Return (doc, d) ->
  d !! "_id"
  = Some (VStr (String.concat (default "." (separator opts))
                  (map join_elem (map snd (pKeys r))))).
Proof.
  intros Hown Hnd Hdef Hres Hfield Hbuild.
  destruct (buildAction_lookup _ _ _ _ _ _ Hbuild)
    as (id & _index & _type & Hid & _ & _ & Hd & _).
  rewrite Hd. f_equal.
  unfold resolve_id in Hid. rewrite Hres, Hfield in Hid.
  unfold assembleField in Hid.
  pose proof (key_values_resolve get r Hown Hnd Hdef) as Hall.
  apply map_throwing_Return in Hall. rewrite Hall in Hid.
  simpl in Hid. injection Hid as <-. reflexivity.
Qed.

Lemma id_joins_the_key_values_witness :
  exists doc d,
    Samples.build Samples.xy_parsed (Samples.plain Samples.resolving)
    = Return (doc, d) /\
    d !! "_id" = Some (VStr "a.b").
Proof.
  destruct (Samples.build Samples.xy_parsed (Samples.plain Samples.resolving))
    as [[doc d]|e] eqn:Hb; [|discriminate Hb].
  exists doc, d. split; [reflexivity|].
  apply (id_joins_the_key_values Reference.get Reference.pick
           Samples.xy_parsed (Samples.plain Samples.resolving) doc d).
  - exact reference_get_own.
  - apply (bool_decide_unpack _). vm_compute. exact I.
  - simpl. repeat constructor; discriminate.
  - reflexivity.
  - reflexivity.
  - exact Hb.
Defined.

(** ** The type attribute *)

Lemma blank_fieldpath_val (f : fieldpath) :
  fieldpath_truthy f = false -> truthy (fieldpath_val f) = false.
Proof. destruct f; simpl; congruence. Qed.

Lemma bump_version_lookup (d : descriptor) (k : string) :
  k <> "version" -> bump_version d !! k = d !! k.
Proof.
  intros Hk. unfold bump_version.
  destruct (d !! "version") as [v|]; [|reflexivity].
  destruct (is_undefined v); [reflexivity|].
  now rewrite lookup_insert_ne.
Qed.

(** C7. When [type] is unset or blank, and [typeField] is unset or blank
    or resolves to a falsy value, the descriptor that [buildAction] returns
    has no [_type] attribute, and neither has the descriptor of a delete
    action made from it. *)
Theorem blank_type_is_omitted
    (get pick : jsval -> fieldpath -> jsval) (r : parsed_record)
    (opts : options) (doc : jsval) (d : descriptor) :
  string_truthy (type opts) = false ->
  (fieldpath_truthy (typeField opts) = false \/
   exists t,
     assembleField get r (typeField opts)
       (Some (default "." (separator opts))) = Return t /\
     truthy t = false) ->
  buildAction get pick r opts = Return (doc, d) ->
  d !! "_type" = None /\ bump_version d !! "_type" = None.
Proof.
  intros Htype Hfield Hbuild.
  destruct (buildAction_lookup _ _ _ _ _ _ Hbuild)
    as (id & _index & _type & _ & _ & Hty & _ & _ & Hd).
  assert (Hblank : truthy _type = false).
  { unfold type_of_descriptor in Hty. rewrite Htype in Hty.
    destruct (fieldpath_truthy (typeField opts)) eqn:Hf.
    - destruct Hfield as [Hfalse|(t & Ht & Hblank)]; [discriminate|].
      congruence.
    - injection Hty as <-. now apply blank_fieldpath_val. }
  rewrite Hblank in Hd.
  split; [exact Hd|].
  rewrite bump_version_lookup by discriminate. exact Hd.
Qed.

Lemma blank_type_is_omitted_witness :
  exists doc d,
    Samples.build Samples.id_parsed
      (Samples.typed_versioned (FStr "kind") None)
    = Return (doc, d) /\
    d !! "_type" = None /\ bump_version d !! "_type" = None.
Proof.
  destruct (Samples.build Samples.id_parsed
              (Samples.typed_versioned (FStr "kind") None))
    as [[doc d]|e] eqn:Hb; [|discriminate Hb].
  exists doc, d. split; [reflexivity|].
  apply (blank_type_is_omitted Reference.get Reference.pick
           Samples.id_parsed (Samples.typed_versioned (FStr "kind") None)
           doc d).
  - reflexivity.
  - right. exists (VStr ""). split; reflexivity.
  - exact Hb.
Defined.

Example type_unset_is_omitted :
  Samples.attribute "_type"
    (Samples.build Samples.id_parsed (Samples.plain Samples.resolving))
  = None.
Proof. reflexivity. Qed.

Example type_field_is_kept :
  Samples.attribute "_type"
    (Samples.build Samples.id_parsed
       (Samples.typed_versioned (FStr "id") None))
  = Some (VStr "abc").
Proof. reflexivity. Qed.

(** ** The version of a delete action *)

Lemma event_is_exclusive (record : stream_record) (a b : string) :
  event_is record a = true -> a <> b -> event_is record b = false.
Proof.
  unfold event_is. destruct (eventName record) as [n|]; [|discriminate].
  intros Ha Hne. apply String.eqb_eq in Ha as ->.
  now apply String.eqb_neq.
Qed.

(** C4. For a [REMOVE] record whose document is emitted, with a
    [versionField] or a [versionResolver] configured, the resolved version
    is a number [n] and the delete action that [buildRequest] appends
    carries the descriptor of [buildAction] with version [n + 1]. *)
Theorem remove_increments_version
    (get pick : jsval -> fieldpath -> jsval)
    (unmarshall : jsval -> completion obj)
    (opts : options) (acc : request) (record : stream_record)
    (p : parsed_record) (doc : jsval) (d : descriptor) :
  event_is record "REMOVE" = true ->
  version_configured opts = true ->
  parseRecord unmarshall record = Return p ->
  buildAction get pick p opts = Return (doc, d) ->
  truthy doc = true ->
  exists n,
    resolve_version get p opts doc = Return (VNum n) /\
    d !! "version" = Some (VNum n) /\
    let action := DeleteAction (<["version" := VNum (n + 1)]> d) in
    map_record get pick unmarshall opts acc record
    = Return
        {| actions := (actions acc ++ [action])%list;
           meta :=
             (meta acc ++
                [{| meta_record := record; meta_parsed := p;
                    meta_action := action; meta_document := doc |}])%list |}.
Proof.
  intros Hremove Hconf Hparse Hbuild Hdoc.
  destruct (buildAction_inv _ _ _ _ _ _ Hbuild)
    as (id & _index & _type & d1 & _ & _ & _ & _ & _ & Hver).
  destruct (with_version_configured _ _ _ _ _ _ Hconf Hver)
    as (n & Hres & Hd).
  assert (Hlook : d !! "version" = Some (VNum n)).
  { rewrite Hd. rewrite lookup_insert_ne by discriminate.
    apply lookup_insert_eq. }
  exists n. split; [exact Hres|]. split; [exact Hlook|].
  cbv zeta. unfold map_record.
  rewrite Hparse. simpl. rewrite Hbuild. simpl. rewrite Hdoc.
  rewrite (event_is_exclusive record "REMOVE" "INSERT" Hremove)
    by discriminate.
  rewrite (event_is_exclusive record "REMOVE" "MODIFY" Hremove)
    by discriminate.
  rewrite Hremove. simpl.
  unfold bump_version. rewrite Hlook. reflexivity.
Qed.

Lemma remove_increments_version_witness :
  exists doc d n,
    Samples.build Samples.removed_parsed
      (Samples.typed_versioned FUndef (Some "field2"))
    = Return (doc, d) /\
    d !! "version" = Some (VNum n) /\
    map_record Reference.get Reference.pick Reference.unmarshall
      (Samples.typed_versioned FUndef (Some "field2"))
      {| actions := []; meta := [] |} Samples.removed_record
    = Return
        {| actions := [DeleteAction (<["version" := VNum (n + 1)]> d)];
           meta :=
             [{| meta_record := Samples.removed_record;
                 meta_parsed := Samples.removed_parsed;
                 meta_action :=
                   DeleteAction (<["version" := VNum (n + 1)]> d);
                 meta_document := doc |}] |}.
Proof.
  destruct (Samples.build Samples.removed_parsed
              (Samples.typed_versioned FUndef (Some "field2")))
    as [[doc d]|e] eqn:Hb; [|discriminate Hb].
  destruct (remove_increments_version
              Reference.get Reference.pick Reference.unmarshall
              (Samples.typed_versioned FUndef (Some "field2"))
              {| actions := []; meta := [] |} Samples.removed_record
              Samples.removed_parsed doc d)
    as (n & _ & Hversion & Hmap).
  - reflexivity.
  - reflexivity.
  - reflexivity.
  - exact Hb.
  - unfold Samples.build in Hb. vm_compute in Hb. injection Hb as <- _.
    reflexivity.
  - exists doc, d, n. split; [reflexivity|]. split; [exact Hversion|].
    exact Hmap.
Defined.

Example removed_version_one_becomes_two :
  match
    map_record Reference.get Reference.pick Reference.unmarshall
      (Samples.typed_versioned FUndef (Some "field2"))
      {| actions := []; meta := [] |} Samples.removed_record
  with
  | Return {| actions := [DeleteAction d] |} =>
      (d !! "version", d !! "versionType")
  | _ => (None, None)
  end
  = (Some (VNum 2), Some (VStr "external")).
Proof. reflexivity. Qed.

(** ** index.js: the calls an invocation makes *)

Ltac run_monad :=
  unfold bind, try_catch, lift, ret, throw, invoke in *.

Lemma count_calls_app (p : call -> bool) (l1 l2 : list call) :
  count_calls p (l1 ++ l2)%list = (count_calls p l1 + count_calls p l2)%nat.
Proof. unfold count_calls. now rewrite filter_app, length_app. Qed.

Lemma count_calls_snoc (p : call -> bool) (l : list call) (c : call) :
  count_calls p (l ++ [c])%list
  = (count_calls p l + if p c then 1 else 0)%nat.
Proof.
  rewrite count_calls_app. f_equal. unfold count_calls.
  destruct (p c) eqn:Hc.
  - now rewrite filter_cons_True.
  - rewrite filter_cons_False by congruence. reflexivity.
Qed.

Lemma count_calls_none (p : call -> bool) (l : list call) :
  Forall (fun c => p c = false) l -> count_calls p l = 0%nat.
Proof.
  unfold count_calls. induction 1 as [|c l Hc _ IH]; [reflexivity|].
  rewrite filter_cons_False by congruence. exact IH.
Qed.


Section Invocation.

Variable get : jsval -> fieldpath -> jsval.
Variable pick : jsval -> fieldpath -> jsval.
Variable unmarshall : jsval -> completion obj.
Variable EVENT : event -> option string.

Variable opts : options.
Variable ev : event.
Variable context : jsval.

(** [buildRequest] calls nothing but [recordErrorHook]. *)
Lemma reduce_records_trace (records : list stream_record) (acc : request)
    (tr tr' : list call) (res : completion request) :
  reduce_records get pick unmarshall ev context opts records acc tr
  = (res, tr') ->
  exists new,
    tr' = (tr ++ new)%list /\
    Forall (fun c => exists e, c = RecordErrorHookCall e) new.
Proof.
  revert acc tr. induction records as [|record rest IH]; intros acc tr H.
  - simpl in H. run_monad. injection H as <- <-.
    exists []. split; [now rewrite app_nil_r | constructor].
  - simpl in H. run_monad.
    destruct (map_record get pick unmarshall opts acc record) as [acc'|e].
    + apply IH in H. exact H.
    + destruct (recordErrorHook opts) as [hook|].
      * destruct (hook ev context e) as [u|e'].
        -- apply IH in H as (new & -> & Hnew).
           exists (RecordErrorHookCall e :: new). split.
           ++ now rewrite <- app_assoc.
           ++ constructor; eauto.
        -- injection H as <- <-.
           exists [RecordErrorHookCall e]. split; [reflexivity|].
           constructor; eauto.
      * injection H as <- <-.
        exists []. split; [now rewrite app_nil_r | constructor].
Qed.

Lemma buildRequest_counts (p : call -> bool) (tr tr' : list call)
    (res : completion request) :
  (forall e, p (RecordErrorHookCall e) = false) ->
  buildRequest get pick unmarshall ev context opts tr = (res, tr') ->
  count_calls p tr' = count_calls p tr.
Proof.
  intros Hp H. apply reduce_records_trace in H as (new & -> & Hnew).
  rewrite count_calls_app, (count_calls_none p new); [lia|].
  eapply Forall_impl; [exact Hnew|].
  intros c (e & ->). apply Hp.
Qed.

(** Records whose documents are all falsy leave the request as it is and
    call no hook. *)
Lemma falsy_documents_are_skipped (records : list stream_record)
    (acc : request) (tr : list call) :
  Forall
    (fun record =>
       exists p doc d,
         parseRecord unmarshall record = Return p /\
         buildAction get pick p opts = Return (doc, d) /\
         truthy doc = false) records ->
  reduce_records get pick unmarshall ev context opts records acc tr
  = (Return acc, tr).
Proof.
  induction 1 as [|record rest (p & doc & d & Hp & Hb & Hdoc) _ IH].
  - reflexivity.
  - simpl. run_monad. unfold map_record.
    rewrite Hp. simpl. rewrite Hb. simpl. rewrite Hdoc. exact IH.
Qed.

Lemma run_beforeHook_trace (tr tr' : list call) (res : completion unit) :
  run_beforeHook opts ev context tr = (res, tr') ->
  tr' = tr \/ tr' = (tr ++ [BeforeHookCall])%list.
Proof.
  unfold run_beforeHook. destruct (beforeHook opts); run_monad;
    intros H; injection H as <- <-; auto.
Qed.

Lemma run_beforeHook_counts (p : call -> bool) (tr tr' : list call)
    (res : completion unit) :
  p BeforeHookCall = false ->
  run_beforeHook opts ev context tr = (res, tr') ->
  count_calls p tr' = count_calls p tr.
Proof.
  intros Hp H. apply run_beforeHook_trace in H as [->| ->]; [reflexivity|].
  rewrite count_calls_snoc, Hp. lia.
Qed.

(** One attempt and what follows it. *)
Lemma attempts_unfold {A} (input : M A) (k : nat) (errors : list exn)
    (tr : list call) :
  attempts input k errors tr
  = match input tr with
    | (Return a, tr') => (Return a, tr')
    | (Throw error, tr') =>
        if retried error
        then
          match k with
          | S n => attempts input n (errors ++ [error])%list tr'
          | O => (Throw (mainError (errors ++ [error])%list error), tr')
          end
        else
          (Throw
             match error with
             | Thrown payload =>
                 TypeError
                   ("Non-error was thrown: " ++ dquote ++ ToString payload
                    ++ dquote ++ ". You should only throw errors.")
             | AbortError originalError => originalError
             | _ => error
             end, tr')
    end.
Proof.
  destruct k; simpl; unfold try_catch, throw;
    destruct (input tr) as [[a|e] t]; try reflexivity;
    destruct e; reflexivity.
Qed.



(** Every attempt of the submission is one call of [esclient.bulk] with
    the same parameters, and a result of the whole is the result of the
    last call. *)
Lemma attempts_bulk_trace (parsedEvent : request) (k : nat)
    (errors : list exn) (tr tr' : list call) (res : completion jsval) :
  attempts (bulk opts parsedEvent) k errors tr = (res, tr') ->
  exists pre params,
    tr' = (tr ++ pre ++ [BulkCall params])%list /\
    Forall (fun c => is_bulk c = true) pre /\
    (length pre <= k)%nat /\
    forall result,
      res = Return result ->
      esclient_bulk opts (count_calls is_bulk (tr ++ pre)%list) params
      = Return result.
Proof.
  revert errors tr. induction k as [|k IH]; intros errors tr H;
    rewrite attempts_unfold in H; unfold bulk at 1 in H; run_monad;
    destruct (esclient_bulk opts (count_calls is_bulk tr) _) as [v|e] eqn:Hc.
  - injection H as <- <-.
    exists [], {| bulk_extra := bulkOpts opts; body := actions parsedEvent |}.
    rewrite app_nil_r. repeat split; auto.
    intros result Hr. now injection Hr as <-.
  - exists [], {| bulk_extra := bulkOpts opts; body := actions parsedEvent |}.
    rewrite app_nil_r.
    destruct (retried e); injection H as <- <-;
      repeat split; auto; discriminate.
  - injection H as <- <-.
    exists [], {| bulk_extra := bulkOpts opts; body := actions parsedEvent |}.
    rewrite app_nil_r. repeat split; auto; [simpl; lia|].
    intros result Hr. now injection Hr as <-.
  - destruct (retried e).
    + apply IH in H as (pre & params & -> & Hpre & Hlen & Hres).
      exists (BulkCall
                {| bulk_extra := bulkOpts opts;
                   body := actions parsedEvent |} :: pre), params.
      repeat split.
      * now rewrite <- app_assoc.
      * constructor; auto.
      * simpl; lia.
      * rewrite <- app_assoc in Hres. exact Hres.
    + injection H as <- <-.
      exists [],
        {| bulk_extra := bulkOpts opts; body := actions parsedEvent |}.
      rewrite app_nil_r. repeat split; auto; [simpl; lia|discriminate].
Qed.

Lemma retry_bulk_trace (parsedEvent : request) (k : nat)
    (tr tr' : list call) (res : completion jsval) :
  retry (bulk opts parsedEvent) k tr = (res, tr') ->
  exists pre params,
    tr' = (tr ++ pre ++ [BulkCall params])%list /\
    Forall (fun c => is_bulk c = true) pre /\
    (length pre <= k)%nat /\
    forall result,
      res = Return result ->
      esclient_bulk opts (count_calls is_bulk (tr ++ pre)%list) params
      = Return result.
Proof. apply attempts_bulk_trace. Qed.




(** After an error that is not retried the submission is over. *)
Lemma retry_bulk_given_up (parsedEvent : request) (k : nat)
    (tr : list call) (e : exn) :
  esclient_bulk opts (count_calls is_bulk tr)
    {| bulk_extra := bulkOpts opts; body := actions parsedEvent |}
  = Throw e ->
  retried e = false ->
  exists e',
    retry (bulk opts parsedEvent) k tr
    = (Throw e',
       (tr ++ [BulkCall {| bulk_extra := bulkOpts opts;
                           body := actions parsedEvent |}])%list).
Proof.
  intros Hcall Hgiven. unfold retry. rewrite attempts_unfold.
  unfold bulk. run_monad. rewrite Hcall, Hgiven. eauto.
Qed.

End Invocation.

Section Outcome.

Variable get : jsval -> fieldpath -> jsval.
Variable pick : jsval -> fieldpath -> jsval.
Variable unmarshall : jsval -> completion obj.
Variable EVENT : event -> option string.

Variable opts : options.
Variable ev : event.
Variable context : jsval.

Lemma handle_catch_counts (p : call -> bool) (err : exn)
    (tr tr' : list call) (res : completion jsval) :
  p (ErrorHookCall err) = false ->
  handle_catch opts ev context err tr = (res, tr') ->
  count_calls p tr' = count_calls p tr.
Proof.
  unfold handle_catch. intros Hp H.
  destruct (errorHook opts); run_monad; injection H as <- <-.
  - rewrite count_calls_snoc, Hp. lia.
  - reflexivity.
Qed.

Lemma handle_catch_trace (err : exn) (tr tr' : list call)
    (res : completion jsval) :
  handle_catch opts ev context err tr = (res, tr') ->
  exists post, tr' = (tr ++ post)%list.
Proof.
  unfold handle_catch. intros H.
  destruct (errorHook opts); run_monad; injection H as <- <-.
  - eauto.
  - exists []. now rewrite app_nil_r.
Qed.

(** With an empty action list the invocation ends right after
    [buildRequest]. *)
Lemma handle_empty_batch (tr tr1 tr2 : list call) (parsedEvent : request) :
  run_beforeHook opts ev context tr = (Return tt, tr1) ->
  EVENT ev = None ->
  buildRequest get pick unmarshall ev context opts tr1
  = (Return parsedEvent, tr2) ->
  actions parsedEvent = [] ->
  handle get pick unmarshall EVENT opts ev context tr
  = (Return empty_result, tr2).
Proof.
  intros Hbefore Hvalid Hbuild Hempty.
  unfold handle, handle_try. run_monad.
  rewrite Hbefore. unfold validate. rewrite Hvalid, Hbuild, Hempty.
  reflexivity.
Qed.

(** With actions to submit the invocation goes on to [deliver]. *)
Lemma handle_submits (tr tr1 tr2 : list call) (parsedEvent : request) :
  run_beforeHook opts ev context tr = (Return tt, tr1) ->
  EVENT ev = None ->
  buildRequest get pick unmarshall ev context opts tr1
  = (Return parsedEvent, tr2) ->
  actions parsedEvent <> [] ->
  handle get pick unmarshall EVENT opts ev context tr
  = try_catch (deliver opts ev context parsedEvent)
      (handle_catch opts ev context) tr2.
Proof.
  intros Hbefore Hvalid Hbuild Hactions.
  unfold handle, handle_try. run_monad.
  rewrite Hbefore. unfold validate. rewrite Hvalid, Hbuild.
  destruct (actions parsedEvent) as [|a l] eqn:Ha; [congruence|].
  reflexivity.
Qed.

(** [afterHook] is called at most once, right after a call of
    [esclient.bulk] that returned, with what that call returned. *)
Lemma handle_afterHook (tr tr' : list call) (res : completion jsval) :
  handle get pick unmarshall EVENT opts ev context tr = (res, tr') ->
  count_calls is_afterHook tr' = count_calls is_afterHook tr \/
  exists tr0 tr1 parsedEvent pre params result hook post,
    run_beforeHook opts ev context tr = (Return tt, tr0) /\
    buildRequest get pick unmarshall ev context opts tr0
    = (Return parsedEvent, tr1) /\
    actions parsedEvent <> [] /\
    afterHook opts = Some hook /\
    esclient_bulk opts (count_calls is_bulk (tr1 ++ pre)%list) params
    = Return result /\
    tr' = (tr1 ++ pre
           ++ [BulkCall params; AfterHookCall result (meta parsedEvent)]
           ++ post)%list.
Proof.
  intros H.
  destruct (run_beforeHook opts ev context tr) as [[[]|e0] tr0] eqn:Hbefore.
  2:{ left. unfold handle, handle_try in H. run_monad.
      rewrite Hbefore in H.
      apply (handle_catch_counts is_afterHook) in H; [|reflexivity]. rewrite H.
      eapply run_beforeHook_counts; [|exact Hbefore]. reflexivity. }
  pose proof (run_beforeHook_counts opts ev context is_afterHook _ _ _
                eq_refl Hbefore) as Hc0.
  destruct (EVENT ev) as [msg|] eqn:Hvalid.
  { left. unfold handle, handle_try in H. run_monad.
    rewrite Hbefore in H. unfold validate in H. rewrite Hvalid in H.
    apply (handle_catch_counts is_afterHook) in H; [|reflexivity]. congruence. }
  destruct (buildRequest get pick unmarshall ev context opts tr0)
    as [[parsedEvent|e1] tr1] eqn:Hbuild.
  2:{ left. unfold handle, handle_try in H. run_monad.
      rewrite Hbefore in H. unfold validate in H.
      rewrite Hvalid, Hbuild in H.
      apply (handle_catch_counts is_afterHook) in H; [|reflexivity]. rewrite H, <- Hc0.
      eapply buildRequest_counts; [|exact Hbuild]. reflexivity. }
  pose proof (buildRequest_counts get pick unmarshall opts ev context
                is_afterHook _ _ _ (fun _ => eq_refl) Hbuild) as Hc1.
  destruct (actions parsedEvent) as [|a l] eqn:Hactions.
  { left.
    rewrite (handle_empty_batch _ _ _ _ Hbefore Hvalid Hbuild Hactions) in H.
    injection H as <- <-. congruence. }
  rewrite (handle_submits tr tr0 tr1 parsedEvent Hbefore Hvalid Hbuild) in H
    by congruence.
  unfold deliver in H. run_monad.
  destruct (retry (bulk opts parsedEvent) (retry_count opts) tr1)
    as [[result|e2] tr2] eqn:Hretry.
  2:{ left.
      apply retry_bulk_trace in Hretry
        as (pre & params & -> & Hpre & _ & _).
      apply (handle_catch_counts is_afterHook) in H; [|reflexivity]. rewrite H.
      rewrite app_assoc, count_calls_snoc, count_calls_app. simpl.
      rewrite (count_calls_none is_afterHook pre); [lia|].
      eapply Forall_impl; [exact Hpre|].
      intros c Hc. destruct c; simpl in *; congruence. }
  apply retry_bulk_trace in Hretry
    as (pre & params & -> & Hpre & _ & Hcall).
  destruct (afterHook opts) as [hook|] eqn:Hafter.
  2:{ left. injection H as <- <-.
      rewrite app_assoc, count_calls_snoc, count_calls_app. simpl.
      rewrite (count_calls_none is_afterHook pre); [lia|].
      eapply Forall_impl; [exact Hpre|].
      intros c Hc. destruct c; simpl in *; congruence. }
  right.
  assert (Hpost : exists post,
             tr' = ((tr1 ++ pre ++ [BulkCall params])
                    ++ [AfterHookCall result (meta parsedEvent)]
                    ++ post)%list).
  { destruct (hook ev context result (meta parsedEvent)) as [v|e3].
    - injection H as <- <-. exists []. now rewrite app_nil_r.
    - apply handle_catch_trace in H as (post & ->).
      exists post. now rewrite <- app_assoc. }
  destruct Hpost as (post & ->).
  exists tr0, tr1, parsedEvent, pre, params, result, hook, post.
  repeat split; auto; try congruence.
  now rewrite <- !app_assoc.
Qed.

End Outcome.

(** ** The empty batch *)

(** C2. When [beforeHook] and the validation of the batch have passed and
    [buildRequest] returns an empty action list, [handle] returns
    [{ took: 0, errors: false, items: [] }] and has made no call of
    [esclient.bulk].  The action list is empty, for one, when the document
    of every record is falsy. *)
Theorem empty_batch_is_not_submitted
    (get pick : jsval -> fieldpath -> jsval)
    (unmarshall : jsval -> completion obj) (EVENT : event -> option string)
    (opts : options) (ev : event) (context : jsval)
    (tr tr1 tr2 : list call) (parsedEvent : request) :
  run_beforeHook opts ev context tr = (Return tt, tr1) ->
  EVENT ev = None ->
  buildRequest get pick unmarshall ev context opts tr1
  = (Return parsedEvent, tr2) ->
  actions parsedEvent = [] ->
  (handle get pick unmarshall EVENT opts ev context tr
   = (Return
        (VObj [("took", VNum 0); ("errors", VBool false);
               ("items", VArr [])]),
      tr2) /\
   count_calls is_bulk tr2 = count_calls is_bulk tr) /\
  (Forall
     (fun record =>
        exists p doc d,
          parseRecord unmarshall record = Return p /\
          buildAction get pick p opts = Return (doc, d) /\
          truthy doc = false) (Records ev) ->
   forall t,
     buildRequest get pick unmarshall ev context opts t
     = (Return {| actions := []; meta := [] |}, t)).
Proof.
  intros Hbefore Hvalid Hbuild Hempty. split; [split|].
  - exact (handle_empty_batch get pick unmarshall EVENT opts ev context
             tr tr1 tr2 parsedEvent Hbefore Hvalid Hbuild Hempty).
  - rewrite (buildRequest_counts get pick unmarshall opts ev context
               is_bulk _ _ _ (fun _ => eq_refl) Hbuild).
    exact (run_beforeHook_counts opts ev context is_bulk _ _ _
             eq_refl Hbefore).
  - intros Hfalsy t. unfold buildRequest.
    now apply falsy_documents_are_skipped.
Qed.

Lemma empty_batch_is_not_submitted_witness :
  Samples.run
    (Samples.hooked None (Some Samples.skipping) None None None
       Samples.rejecting)
    [Samples.id_record; Samples.xy_record]
  = (Return
       (VObj [("took", VNum 0); ("errors", VBool false); ("items", VArr [])]),
     []) /\
  count_calls is_bulk [] = count_calls is_bulk [].
Proof.
  apply (empty_batch_is_not_submitted
           Reference.get Reference.pick Reference.unmarshall Reference.EVENT
           (Samples.hooked None (Some Samples.skipping) None None None
              Samples.rejecting)
           {| Records := [Samples.id_record; Samples.xy_record] |} VNull
           [] [] [] {| actions := []; meta := [] |}); reflexivity.
Defined.

(** C10. Under the same conditions [handle] returns the empty result
    without a call of [afterHook], configured or not.  In any invocation
    [afterHook] is called only when the action list is not empty, right
    after a call of [esclient.bulk] that returned, and with what it
    returned. *)
Theorem empty_batch_skips_afterHook
    (get pick : jsval -> fieldpath -> jsval)
    (unmarshall : jsval -> completion obj) (EVENT : event -> option string)
    (opts : options) (ev : event) (context : jsval)
    (tr tr1 tr2 : list call) (parsedEvent : request) :
  run_beforeHook opts ev context tr = (Return tt, tr1) ->
  EVENT ev = None ->
  buildRequest get pick unmarshall ev context opts tr1
  = (Return parsedEvent, tr2) ->
  actions parsedEvent = [] ->
  (handle get pick unmarshall EVENT opts ev context tr
   = (Return empty_result, tr2) /\
   count_calls is_afterHook tr2 = count_calls is_afterHook tr) /\
  (forall t res t',
      handle get pick unmarshall EVENT opts ev context t = (res, t') ->
      count_calls is_afterHook t' <> count_calls is_afterHook t ->
      exists t1 submitted pre params result post,
        actions submitted <> [] /\
        esclient_bulk opts (count_calls is_bulk (t1 ++ pre)%list) params
        = Return result /\
        t' = (t1 ++ pre
              ++ [BulkCall params; AfterHookCall result (meta submitted)]
              ++ post)%list).
Proof.
  intros Hbefore Hvalid Hbuild Hempty. split; [split|].
  - exact (handle_empty_batch get pick unmarshall EVENT opts ev context
             tr tr1 tr2 parsedEvent Hbefore Hvalid Hbuild Hempty).
  - rewrite (buildRequest_counts get pick unmarshall opts ev context
               is_afterHook _ _ _ (fun _ => eq_refl) Hbuild).
    exact (run_beforeHook_counts opts ev context is_afterHook _ _ _
             eq_refl Hbefore).
  - intros t res t' Hrun Hcalled.
    destruct (handle_afterHook get pick unmarshall EVENT opts ev context
                t t' res Hrun)
      as [Hsame|(t0 & t1 & submitted & pre & params & result & hook & post
                 & _ & _ & Hactions & _ & Hcall & Htrace)];
      [congruence|].
    exists t1, submitted, pre, params, result, post. auto.
Qed.

Lemma empty_batch_skips_afterHook_witness :
  Samples.run
    (Samples.hooked None (Some Samples.skipping) (Some Samples.overriding)
       None None Samples.resolving)
    [Samples.id_record]
  = (Return empty_result, []) /\
  count_calls is_afterHook [] = count_calls is_afterHook [].
Proof.
  apply (empty_batch_skips_afterHook
           Reference.get Reference.pick Reference.unmarshall Reference.EVENT
           (Samples.hooked None (Some Samples.skipping)
              (Some Samples.overriding) None None Samples.resolving)
           {| Records := [Samples.id_record] |} VNull
           [] [] [] {| actions := []; meta := [] |}); reflexivity.
Defined.

Example afterHook_follows_the_submission :
  Samples.run
    (Samples.hooked None None (Some Samples.overriding) None None
       Samples.resolving)
    [Samples.id_record]
  = (Return (VStr "after"),
     [BulkCall
        {| bulk_extra := [];
           body :=
             [IndexAction
                (<["_id" := VStr "abc"]> (<["_index" := VStr "index"]> ∅));
              Document
                (VObj [("id", VStr "abc"); ("n", VNum 5);
                       ("kind", VStr "")])] |};
      AfterHookCall (VObj [("took", VNum 1); ("errors", VBool false)])
        [{| meta_record := Samples.id_record;
            meta_parsed := Samples.id_parsed;
            meta_action :=
              IndexAction
                (<["_id" := VStr "abc"]> (<["_index" := VStr "index"]> ∅));
            meta_document :=
              VObj [("id", VStr "abc"); ("n", VNum 5);
                    ("kind", VStr "")] |}]]).
Proof. reflexivity. Qed.

(** ** Retries *)




Example rejecting_client_without_retryOptions :
  count_calls is_bulk
    (snd (Samples.run (Samples.plain Samples.rejecting) [Samples.id_record]))
  = 1%nat /\
  fst (Samples.run (Samples.plain Samples.rejecting) [Samples.id_record])
  = Throw (OtherError "indexing error").
Proof. split; reflexivity. Qed.

Example rejecting_client_with_two_retries :
  count_calls is_bulk
    (snd (Samples.run
            (Samples.hooked None None None None (Some Samples.twice)
               Samples.rejecting)
            [Samples.id_record]))
  = 3%nat.
Proof. reflexivity. Qed.

Example mistaken_client_with_two_retries :
  count_calls is_bulk
    (snd (Samples.run
            (Samples.hooked None None None None (Some Samples.twice)
               Cases.mistaken)
            [Samples.id_record]))
  = 1%nat /\
  fst (Samples.run
         (Samples.hooked None None None None (Some Samples.twice)
            Cases.mistaken)
         [Samples.id_record])
  = Throw (TypeError "boom").
Proof. split; reflexivity. Qed.

Example thrown_value_with_two_retries :
  count_calls is_bulk
    (snd (Samples.run
            (Samples.hooked None None None None (Some Samples.twice)
               (fun _ _ => Throw (Thrown (VStr "oops"))))
            [Samples.id_record]))
  = 1%nat /\
  fst (Samples.run
         (Samples.hooked None None None None (Some Samples.twice)
            (fun _ _ => Throw (Thrown (VStr "oops"))))
         [Samples.id_record])
  = Throw
      (TypeError
         ("Non-error was thrown: " ++ dquote ++ "oops" ++ dquote
          ++ ". You should only throw errors.")).
Proof. split; reflexivity. Qed.

Example aborted_with_two_retries :
  count_calls is_bulk
    (snd (Samples.run
            (Samples.hooked None None None None (Some Samples.twice)
               (fun _ _ => Throw (AbortError (OtherError "stop"))))
            [Samples.id_record]))
  = 1%nat /\
  fst (Samples.run
         (Samples.hooked None None None None (Some Samples.twice)
            (fun _ _ => Throw (AbortError (OtherError "stop"))))
         [Samples.id_record])
  = Throw (OtherError "stop").
Proof. split; reflexivity. Qed.

Example main_error_is_the_most_frequent :
  count_calls is_bulk
    (snd (Samples.run
            (Samples.hooked None None None None (Some Samples.twice)
               Cases.flaky)
            [Samples.id_record]))
  = 3%nat /\
  fst (Samples.run
         (Samples.hooked None None None None (Some Samples.twice)
            Cases.flaky)
         [Samples.id_record])
  = Throw (OtherError "indexing error").
Proof. split; reflexivity. Qed.

(** ** Errors before the submission *)

(** C3, as the specification words it, fails: with an [errorHook]
    configured, the [ValidationError] of a batch that lacks an [eventName]
    does not reach the caller; the invocation returns what the hook
    returns. *)
Lemma invalid_batch_is_not_always_fatal :
  ~ (forall (opts : options) (ev : event) (message : string),
        beforeHook opts = None ->
        Reference.EVENT ev = Some message ->
        fst (handle Reference.get Reference.pick Reference.unmarshall
               Reference.EVENT opts ev VNull [])
        = Throw (ValidationError message)).
Proof.
  intros H.
  specialize (H (Samples.hooked None None None (Some Samples.handled) None
                   Samples.resolving)
                {| Records := [Samples.nameless_record] |}
                _ eq_refl eq_refl).
  discriminate H.
Qed.

(** C3, amended. When the validation of the incoming batch fails, the
    [ValidationError] propagates to the caller if no [errorHook] is
    configured; if one is configured it is called once with that error,
    and the invocation completes as the hook does.  Nothing else is
    called. *)
Theorem invalid_batch_goes_to_errorHook
    (get pick : jsval -> fieldpath -> jsval)
    (unmarshall : jsval -> completion obj) (EVENT : event -> option string)
    (opts : options) (ev : event) (context : jsval)
    (tr tr1 : list call) (message : string) :
  run_beforeHook opts ev context tr = (Return tt, tr1) ->
  EVENT ev = Some message ->
  handle get pick unmarshall EVENT opts ev context tr
  = match errorHook opts with
    | Some hook =>
        (hook ev context (ValidationError message),
         (tr1 ++ [ErrorHookCall (ValidationError message)])%list)
    | None => (Throw (ValidationError message), tr1)
    end.
Proof.
  intros Hbefore Hinvalid.
  unfold handle, handle_try, handle_catch. run_monad.
  rewrite Hbefore. unfold validate. rewrite Hinvalid.
  destruct (errorHook opts); reflexivity.
Qed.

Lemma invalid_batch_goes_to_errorHook_witness :
  Samples.run (Samples.plain Samples.resolving) [Samples.nameless_record]
  = (Throw
       (ValidationError
          (dquote ++ "Records[0].eventName" ++ dquote ++ " is required")),
     []).
Proof.
  apply (invalid_batch_goes_to_errorHook
           Reference.get Reference.pick Reference.unmarshall Reference.EVENT
           (Samples.plain Samples.resolving)
           {| Records := [Samples.nameless_record] |} VNull [] []);
    reflexivity.
Defined.

Example invalid_batch_with_errorHook :
  Samples.run
    (Samples.hooked None None None (Some Samples.handled) None
       Samples.resolving)
    [Samples.nameless_record]
  = (Return (VStr "handled"),
     [ErrorHookCall
        (ValidationError
           (dquote ++ "Records[0].eventName" ++ dquote ++ " is required"))]).
Proof. reflexivity. Qed.

(** C5, as the specification words it, fails: with an [errorHook]
    configured, what [beforeHook] throws is caught and handed to it. *)
Lemma beforeHook_failure_is_intercepted :
  ~ (forall (opts : options) (ev : event)
            (hook : event -> jsval -> completion unit) (e : exn),
        beforeHook opts = Some hook ->
        hook ev VNull = Throw e ->
        fst (handle Reference.get Reference.pick Reference.unmarshall
               Reference.EVENT opts ev VNull [])
        = Throw e).
Proof.
  intros H.
  specialize (H (Samples.hooked (Some Samples.failing_before) None None
                   (Some Samples.handled) None Samples.resolving)
                {| Records := [Samples.id_record] |}
                _ _ eq_refl eq_refl).
  discriminate H.
Qed.

(** C5, amended. What a configured [beforeHook] throws propagates to the
    caller when no [errorHook] is configured; when one is configured it is
    called with the error and the invocation completes as it does.  No
    other hook and no submission is called. *)
Theorem beforeHook_failure_goes_to_errorHook
    (get pick : jsval -> fieldpath -> jsval)
    (unmarshall : jsval -> completion obj) (EVENT : event -> option string)
    (opts : options) (ev : event) (context : jsval) (tr : list call)
    (hook : event -> jsval -> completion unit) (e : exn) :
  beforeHook opts = Some hook ->
  hook ev context = Throw e ->
  handle get pick unmarshall EVENT opts ev context tr
  = match errorHook opts with
    | Some errorHook =>
        (errorHook ev context e,
         (tr ++ [BeforeHookCall; ErrorHookCall e])%list)
    | None => (Throw e, (tr ++ [BeforeHookCall])%list)
    end.
Proof.
  intros Hhook Hthrow.
  unfold handle, handle_try, handle_catch, run_beforeHook. run_monad.
  rewrite Hhook, Hthrow.
  destruct (errorHook opts); [|reflexivity].
  now rewrite <- app_assoc.
Qed.

Lemma beforeHook_failure_goes_to_errorHook_witness :
  Samples.run
    (Samples.hooked (Some Samples.failing_before) None
       (Some Samples.overriding) None None Samples.resolving)
    [Samples.id_record]
  = (Throw (Thrown (VStr "before failed")), [BeforeHookCall]).
Proof.
  apply (beforeHook_failure_goes_to_errorHook
           Reference.get Reference.pick Reference.unmarshall Reference.EVENT
           (Samples.hooked (Some Samples.failing_before) None
              (Some Samples.overriding) None None Samples.resolving)
           {| Records := [Samples.id_record] |} VNull []
           Samples.failing_before (Thrown (VStr "before failed")));
    reflexivity.
Defined.

Example beforeHook_failure_with_errorHook :
  Samples.run
    (Samples.hooked (Some Samples.failing_before) None None
       (Some Samples.handled) None Samples.resolving)
    [Samples.id_record]
  = (Return (VStr "handled"),
     [BeforeHookCall; ErrorHookCall (Thrown (VStr "before failed"))]).
Proof. reflexivity. Qed.

(** * Further properties of the code *)

#[local] Set Warnings "-clear-no-such-hyp".

(** ** build-request.js: the request as a whole *)

Section Request.

Variable get : jsval -> fieldpath -> jsval.
Variable pick : jsval -> fieldpath -> jsval.
Variable unmarshall : jsval -> completion obj.
Variable opts : options.

Lemma pushed_after_nothing (acc : request) :
  pushed_after acc no_request = acc.
Proof.
  destruct acc as [a m]. unfold pushed_after. simpl.
  now rewrite !app_nil_r.
Qed.

Lemma pushed_after_assoc (a b c : request) :
  pushed_after (pushed_after a b) c = pushed_after a (pushed_after b c).
Proof. unfold pushed_after. simpl. now rewrite <- !app_assoc. Qed.

(** What a record contributes does not depend on the accumulator. *)
Lemma map_record_pushes (acc : request) (record : stream_record) :
  map_record get pick unmarshall opts acc record
  = match map_record get pick unmarshall opts no_request record with
    | Return delta => Return (pushed_after acc delta)
    | Throw e => Throw e
    end.
Proof.
  unfold map_record.
  destruct (parseRecord unmarshall record) as [p|e]; [simpl|reflexivity].
  destruct (buildAction get pick p opts) as [[doc d]|e]; [simpl|reflexivity].
  destruct (truthy doc).
  - destruct (event_is record "INSERT" || event_is record "MODIFY");
      [reflexivity|].
    destruct (event_is record "REMOVE"); reflexivity.
  - now rewrite pushed_after_nothing.
Qed.

(** A record contributes nothing, or one metadata entry and the items it
    stands for. *)
Lemma map_record_one (record : stream_record) (delta : request) :
  map_record get pick unmarshall opts no_request record = Return delta ->
  delta = no_request \/
  exists m,
    delta = {| actions := items_of m; meta := [m] |} /\
    meta_record m = record /\
    parseRecord unmarshall record = Return (meta_parsed m) /\
    truthy (meta_document m) = true /\
    is_action (meta_action m) = true.
Proof.
  unfold map_record.
  destruct (parseRecord unmarshall record) as [p|e]; [simpl|discriminate].
  destruct (buildAction get pick p opts) as [[doc d]|e];
    [simpl|discriminate].
  destruct (truthy doc) eqn:Hdoc; [|intros H; injection H as <-; now left].
  destruct (event_is record "INSERT" || event_is record "MODIFY").
  - simpl. intros H. injection H as <-. right.
    eexists {| meta_record := record; meta_parsed := p;
               meta_action := IndexAction d; meta_document := doc |}.
    repeat split; auto.
  - destruct (event_is record "REMOVE"); [|discriminate].
    simpl. intros H. injection H as <-. right.
    eexists {| meta_record := record; meta_parsed := p;
               meta_action := DeleteAction (bump_version d);
               meta_document := doc |}.
    repeat split; auto.
Qed.

Lemma failure_None (record : stream_record) :
  failure get pick unmarshall opts record = None ->
  exists delta,
    map_record get pick unmarshall opts no_request record = Return delta.
Proof.
  unfold failure.
  destruct (map_record get pick unmarshall opts no_request record);
    [eauto|discriminate].
Qed.

Lemma failure_Some (record : stream_record) (e : exn) :
  failure get pick unmarshall opts record = Some e <->
  map_record get pick unmarshall opts no_request record = Throw e.
Proof.
  unfold failure.
  destruct (map_record get pick unmarshall opts no_request record);
    split; congruence.
Qed.

Variable ev : event.
Variable context : jsval.

(** The accumulator only grows: the reducer from [acc] returns [acc] with
    what it returns from the empty request pushed after it, and makes the
    same calls. *)
Lemma reduce_records_pushes (records : list stream_record) (acc : request)
    (tr : list call) :
  reduce_records get pick unmarshall ev context opts records acc tr
  = match
      reduce_records get pick unmarshall ev context opts records
        no_request tr
    with
    | (Return req, tr') => (Return (pushed_after acc req), tr')
    | (Throw e, tr') => (Throw e, tr')
    end.
Proof.
  revert acc tr. induction records as [|record rest IH]; intros acc tr.
  - simpl. run_monad. now rewrite pushed_after_nothing.
  - simpl. run_monad.
    rewrite (map_record_pushes acc record).
    destruct (map_record get pick unmarshall opts no_request record)
      as [delta|e].
    + rewrite (IH (pushed_after acc delta)), (IH delta).
      destruct (reduce_records get pick unmarshall ev context opts rest
                  no_request tr) as [[req|e] tr']; [|reflexivity].
      now rewrite pushed_after_assoc.
    + destruct (recordErrorHook opts) as [hook|]; [|reflexivity].
      destruct (hook ev context e); [|reflexivity].
      rewrite (IH acc).
      destruct (reduce_records get pick unmarshall ev context opts rest
                  no_request _) as [[req|e'] tr']; reflexivity.
Qed.

End Request.

Section Batch.

Variable get : jsval -> fieldpath -> jsval.
Variable pick : jsval -> fieldpath -> jsval.
Variable unmarshall : jsval -> completion obj.
Variable opts : options.
Variable ev : event.
Variable context : jsval.

(** What holds of a request that the reducer returns from the empty
    request. *)
Lemma reduce_records_request (records : list stream_record)
    (tr tr' : list call) (req : request) :
  reduce_records get pick unmarshall ev context opts records no_request tr
  = (Return req, tr') ->
  actions req = flat_map items_of (meta req) /\
  Forall
    (fun m =>
       parseRecord unmarshall (meta_record m) = Return (meta_parsed m) /\
       truthy (meta_document m) = true /\
       is_action (meta_action m) = true) (meta req) /\
  sublist (map meta_record (meta req)) records.
Proof.
  revert tr req. induction records as [|record rest IH]; intros tr req H.
  - simpl in H. run_monad. injection H as <- <-. simpl.
    repeat split; constructor.
  - simpl in H. run_monad.
    destruct (map_record get pick unmarshall opts no_request record)
      as [delta|e] eqn:Hmap.
    + rewrite reduce_records_pushes in H.
      destruct (reduce_records get pick unmarshall ev context opts rest
                  no_request tr) as [[req0|e] tr0] eqn:Hrest;
        [|discriminate].
      injection H as <- <-.
      destruct (IH _ _ Hrest) as (Hactions & Hentries & Hsub).
      destruct (map_record_one get pick unmarshall opts record delta Hmap)
        as [->|(m & -> & Hrecord & Hparsed & Hdoc & Haction)].
      * simpl. repeat split; auto. now apply sublist_cons.
      * simpl. rewrite Hactions. split; [reflexivity|]. split.
        -- constructor; [|assumption].
           rewrite Hrecord. repeat split; assumption.
        -- rewrite Hrecord. now apply sublist_skip.
    + destruct (recordErrorHook opts) as [hook|]; [|discriminate].
      destruct (hook ev context e); [|discriminate].
      destruct (IH _ _ H) as (Hactions & Hentries & Hsub).
      repeat split; auto. now apply sublist_cons.
Qed.

(** Records that all map make no call, whatever the event handed to the
    hooks. *)
Lemma reduce_records_quiet (ev' : event) (records : list stream_record)
    (tr : list call) :
  Forall (fun r => maps get pick unmarshall opts r = true) records ->
  exists req,
    forall t,
      reduce_records get pick unmarshall ev' context opts records
        no_request t
      = (Return req, t).
Proof.
  induction 1 as [|record rest Hmaps _ (req & IH)].
  - exists no_request. reflexivity.
  - unfold maps in Hmaps.
    destruct (failure get pick unmarshall opts record) eqn:Hf;
      [discriminate|].
    apply failure_None in Hf as (delta & Hdelta).
    exists (pushed_after delta req). intros t.
    simpl. run_monad. rewrite Hdelta.
    rewrite reduce_records_pushes, IH. reflexivity.
Qed.

End Batch.

(** X1. In a request that [buildRequest] returns, the action list is the
    metadata list entry by entry: each entry's action, followed by its
    document when the action is an index action.  Every entry holds an
    index or delete action, a truthy document and the decoded images of its
    record. *)
Theorem meta_mirrors_actions
    (get pick : jsval -> fieldpath -> jsval)
    (unmarshall : jsval -> completion obj)
    (opts : options) (ev : event) (context : jsval)
    (tr tr' : list call) (req : request) :
  buildRequest get pick unmarshall ev context opts tr = (Return req, tr') ->
  actions req = flat_map items_of (meta req) /\
  Forall
    (fun m =>
       parseRecord unmarshall (meta_record m) = Return (meta_parsed m) /\
       truthy (meta_document m) = true /\
       is_action (meta_action m) = true) (meta req).
Proof.
  intros H. unfold buildRequest in H.
  destruct (reduce_records_request _ _ _ _ _ _ _ _ _ _ H)
    as (Hactions & Hentries & _).
  split; assumption.
Qed.

Lemma meta_mirrors_actions_witness :
  exists req,
    buildRequest Reference.get Reference.pick Reference.unmarshall
      {| Records := [Samples.id_record; Samples.removed_record] |} VNull
      (Samples.plain Samples.resolving) []
    = (Return req, []) /\
    length (meta req) = 2%nat /\
    length (actions req) = 3%nat /\
    actions req = flat_map items_of (meta req).
Proof.
  destruct (buildRequest Reference.get Reference.pick Reference.unmarshall
              {| Records := [Samples.id_record; Samples.removed_record] |}
              VNull (Samples.plain Samples.resolving) [])
    as [[req|e] tr'] eqn:Hb; [|discriminate Hb].
  assert (Htr : tr' = []) by (vm_compute in Hb; congruence).
  subst tr'. exists req. split; [reflexivity|].
  split; [vm_compute in Hb; injection Hb as <-; reflexivity|].
  split; [vm_compute in Hb; injection Hb as <-; reflexivity|].
  exact (proj1 (meta_mirrors_actions _ _ _ _ _ _ _ _ _ Hb)).
Defined.

(** X2. The metadata entries of a returned request follow the input
    order: their records are the records of the batch with some left out
    (the skipped and the failed ones), none repeated or moved. *)
Theorem meta_follows_input_order
    (get pick : jsval -> fieldpath -> jsval)
    (unmarshall : jsval -> completion obj)
    (opts : options) (ev : event) (context : jsval)
    (tr tr' : list call) (req : request) :
  buildRequest get pick unmarshall ev context opts tr = (Return req, tr') ->
  sublist (map meta_record (meta req)) (Records ev).
Proof.
  intros H. unfold buildRequest in H.
  now destruct (reduce_records_request _ _ _ _ _ _ _ _ _ _ H)
    as (_ & _ & Hsub).
Qed.

Lemma meta_follows_input_order_witness :
  exists req,
    buildRequest Reference.get Reference.pick Reference.unmarshall
      {| Records := [Samples.id_record; Samples.removed_record] |} VNull
      (Samples.plain Samples.resolving) []
    = (Return req, []) /\
    sublist (map meta_record (meta req))
      [Samples.id_record; Samples.removed_record].
Proof.
  destruct (buildRequest Reference.get Reference.pick Reference.unmarshall
              {| Records := [Samples.id_record; Samples.removed_record] |}
              VNull (Samples.plain Samples.resolving) [])
    as [[req|e] tr'] eqn:Hb; [|discriminate Hb].
  assert (Htr : tr' = []) by (vm_compute in Hb; congruence).
  subst tr'. exists req. split; [reflexivity|].
  exact (meta_follows_input_order _ _ _ _ _ _ _ _ _ Hb).
Defined.

(** ** build-request.js: records that fail *)

Section Failures.

Variable get : jsval -> fieldpath -> jsval.
Variable pick : jsval -> fieldpath -> jsval.
Variable unmarshall : jsval -> completion obj.
Variable opts : options.
Variable ev : event.
Variable context : jsval.

(** With a hook that returns, every failure becomes one call of the hook
    and the reducer goes on. *)
Lemma reduce_records_isolated
    (hook : event -> jsval -> exn -> completion unit)
    (records : list stream_record) (tr : list call) :
  recordErrorHook opts = Some hook ->
  (forall e, exists u, hook ev context e = Return u) ->
  exists req,
    reduce_records get pick unmarshall ev context opts records no_request tr
    = (Return req,
       (tr ++ map RecordErrorHookCall
                (omap (failure get pick unmarshall opts) records))%list) /\
    forall ev' t,
      reduce_records get pick unmarshall ev' context opts
        (List.filter (maps get pick unmarshall opts) records) no_request t
      = (Return req, t).
Proof.
  intros Hhook Hreturns. revert tr.
  induction records as [|record rest IH]; intros tr.
  - exists no_request. simpl. run_monad. rewrite app_nil_r. auto.
  - simpl. unfold maps. run_monad.
    destruct (failure get pick unmarshall opts record) as [e|] eqn:Hf.
    + apply failure_Some in Hf. rewrite Hf, Hhook.
      destruct (Hreturns e) as (u & ->).
      destruct (IH (tr ++ [RecordErrorHookCall e])%list)
        as (req & Hrun & Hgood).
      exists req. split; [|exact Hgood].
      rewrite Hrun. now rewrite <- app_assoc.
    + apply failure_None in Hf as (delta & Hdelta). rewrite Hdelta.
      destruct (IH tr) as (req & Hrun & Hgood).
      exists (pushed_after delta req). split.
      * now rewrite reduce_records_pushes, Hrun.
      * intros ev' t. simpl. run_monad. rewrite Hdelta.
        now rewrite reduce_records_pushes, Hgood.
Qed.

(** Without a hook the reducer calls nothing and stops at the first
    failure. *)
Lemma reduce_records_unhooked (records : list stream_record)
    (acc : request) (tr tr' : list call) (res : completion request) :
  recordErrorHook opts = None ->
  reduce_records get pick unmarshall ev context opts records acc tr
  = (res, tr') ->
  tr' = tr /\
  match res with
  | Return _ =>
      Forall (fun r => maps get pick unmarshall opts r = true) records
  | Throw e =>
      exists pre record post,
        records = (pre ++ record :: post)%list /\
        Forall (fun r => maps get pick unmarshall opts r = true) pre /\
        failure get pick unmarshall opts record = Some e
  end.
Proof.
  intros Hhook. revert acc.
  induction records as [|record rest IH]; intros acc H.
  - simpl in H. run_monad. injection H as <- <-. split; constructor.
  - simpl in H. run_monad. rewrite map_record_pushes in H.
    destruct (map_record get pick unmarshall opts no_request record)
      as [delta|e] eqn:Hmap.
    + assert (Hmaps : maps get pick unmarshall opts record = true)
        by (unfold maps, failure; now rewrite Hmap).
      destruct (IH _ H) as (-> & Hres). split; [reflexivity|].
      destruct res as [req|e].
      * constructor; assumption.
      * destruct Hres as (pre & r & post & -> & Hpre & Hfail).
        exists (record :: pre), r, post. repeat split; auto.
    + rewrite Hhook in H. injection H as <- <-. split; [reflexivity|].
      exists [], record, rest. repeat split; auto.
      now apply failure_Some.
Qed.

End Failures.

(** X3. With a [recordErrorHook] that returns, [buildRequest] never
    throws: each record that fails becomes one call of the hook with its
    error, in input order, and the request returned is the request of the
    batch without the failed records. *)
Theorem recordErrorHook_isolates_failures
    (get pick : jsval -> fieldpath -> jsval)
    (unmarshall : jsval -> completion obj)
    (opts : options) (ev : event) (context : jsval)
    (hook : event -> jsval -> exn -> completion unit) (tr : list call) :
  recordErrorHook opts = Some hook ->
  (forall e, exists u, hook ev context e = Return u) ->
  exists req,
    buildRequest get pick unmarshall ev context opts tr
    = (Return req,
       (tr ++ map RecordErrorHookCall
                (omap (failure get pick unmarshall opts) (Records ev)))
       %list) /\
    forall t,
      buildRequest get pick unmarshall
        {| Records :=
             List.filter (maps get pick unmarshall opts) (Records ev) |}
        context opts t
      = (Return req, t).
Proof.
  intros Hhook Hreturns. unfold buildRequest.
  destruct (reduce_records_isolated get pick unmarshall opts ev context
              hook (Records ev) tr Hhook Hreturns) as (req & Hrun & Hgood).
  exists req. split; [exact Hrun|].
  intros t. simpl. apply Hgood.
Qed.

Lemma recordErrorHook_isolates_failures_witness :
  exists req,
    buildRequest Reference.get Reference.pick Reference.unmarshall
      {| Records :=
           [Samples.id_record; Cases.renamed_record; Samples.xy_record] |}
      VNull (Cases.set_recordErrorHook (Some Cases.noting) Cases.base) []
    = (Return req,
       [RecordErrorHookCall (UnknownEventNameError Cases.renamed_record)]) /\
    buildRequest Reference.get Reference.pick Reference.unmarshall
      {| Records := [Samples.id_record; Samples.xy_record] |}
      VNull (Cases.set_recordErrorHook (Some Cases.noting) Cases.base) []
    = (Return req, []).
Proof.
  destruct (recordErrorHook_isolates_failures
              Reference.get Reference.pick Reference.unmarshall
              (Cases.set_recordErrorHook (Some Cases.noting) Cases.base)
              {| Records :=
                   [Samples.id_record; Cases.renamed_record;
                    Samples.xy_record] |}
              VNull Cases.noting [] eq_refl)
    as (req & Hrun & Hgood).
  - intros e. exists tt. reflexivity.
  - exists req. split; [exact Hrun|]. exact (Hgood []).
Defined.

(** X4. Without a [recordErrorHook], [buildRequest] calls no hook; it
    returns only when every record maps, and otherwise throws the error of
    the first record that fails. *)
Theorem first_failure_aborts_the_batch
    (get pick : jsval -> fieldpath -> jsval)
    (unmarshall : jsval -> completion obj)
    (opts : options) (ev : event) (context : jsval)
    (tr tr' : list call) (res : completion request) :
  recordErrorHook opts = None ->
  buildRequest get pick unmarshall ev context opts tr = (res, tr') ->
  tr' = tr /\
  match res with
  | Return _ =>
      Forall (fun r => maps get pick unmarshall opts r = true) (Records ev)
  | Throw e =>
      exists pre record post,
        Records ev = (pre ++ record :: post)%list /\
        Forall (fun r => maps get pick unmarshall opts r = true) pre /\
        failure get pick unmarshall opts record = Some e
  end.
Proof.
  intros Hhook H. unfold buildRequest in H.
  exact (reduce_records_unhooked get pick unmarshall opts ev context
           (Records ev) no_request tr tr' res Hhook H).
Qed.

Lemma first_failure_aborts_the_batch_witness :
  buildRequest Reference.get Reference.pick Reference.unmarshall
    {| Records :=
         [Samples.id_record; Cases.renamed_record; Samples.nameless_record] |}
    VNull Cases.base []
  = (Throw (UnknownEventNameError Cases.renamed_record), []) /\
  exists pre record post,
    [Samples.id_record; Cases.renamed_record; Samples.nameless_record]
    = (pre ++ record :: post)%list /\
    Forall
      (fun r =>
         maps Reference.get Reference.pick Reference.unmarshall Cases.base r
         = true) pre /\
    failure Reference.get Reference.pick Reference.unmarshall Cases.base
      record
    = Some (UnknownEventNameError Cases.renamed_record).
Proof.
  split; [reflexivity|].
  exact (proj2 (first_failure_aborts_the_batch
                  Reference.get Reference.pick Reference.unmarshall
                  Cases.base
                  {| Records :=
                       [Samples.id_record; Cases.renamed_record;
                        Samples.nameless_record] |}
                  VNull [] []
                  (Throw (UnknownEventNameError Cases.renamed_record))
                  eq_refl eq_refl)).
Defined.

(** ** build-request.js: the attributes of the descriptor *)

Lemma literal_dom (id _index _type : jsval) :
  dom (literal id _index _type)
  = ({["_index"; "_id"]} ∪ (if truthy _type then {["_type"]} else ∅)
     : gset string).
Proof.
  unfold literal. destruct (truthy _type).
  - rewrite !dom_insert_L, dom_empty_L. set_solver.
  - rewrite dom_delete_L, !dom_insert_L, dom_empty_L.
    apply set_eq. intros k.
    rewrite elem_of_difference, !elem_of_union, !elem_of_singleton.
    rewrite elem_of_empty.
    split.
    + intros ([Hk|[Hk|[Hk|Hk]]] & Hne); tauto.
    + intros [[Hk|Hk]|Hk]; [| |tauto]; subst k;
        (split; [tauto|discriminate]).
Qed.

Section Attributes.

Variable get : jsval -> fieldpath -> jsval.

Lemma with_parent_dom (r : parsed_record) (opts : options)
    (d d' : descriptor) :
  with_parent get r opts d = Return d' ->
  dom d'
  = (dom d ∪ (if string_truthy (parentField opts) then {["parent"]} else ∅)
     : gset string).
Proof.
  unfold with_parent. intros H.
  destruct (string_truthy (parentField opts)).
  - apply cbind_Return in H as (p & _ & H). injection H as <-.
    rewrite dom_insert_L. set_solver.
  - injection H as <-. set_solver.
Qed.

Lemma with_version_dom (r : parsed_record) (opts : options) (doc : jsval)
    (d d' : descriptor) :
  with_version get r opts doc d = Return d' ->
  dom d'
  = (dom d ∪ (if version_configured opts
              then {["version"; "versionType"]} else ∅)
     : gset string).
Proof.
  intros H. destruct (version_configured opts) eqn:Hc.
  - destruct (with_version_configured _ _ _ _ _ _ Hc H) as (n & _ & ->).
    rewrite !dom_insert_L. set_solver.
  - rewrite (with_version_unconfigured _ _ _ _ _ _ Hc H). set_solver.
Qed.

Lemma with_parent_value (r : parsed_record) (opts : options)
    (d d' : descriptor) :
  with_parent get r opts d = Return d' ->
  if string_truthy (parentField opts)
  then exists v,
      getField get r (FStr (default "" (parentField opts))) = Return v /\
      d' = <["parent" := v]> d
  else d' = d.
Proof.
  unfold with_parent. intros H.
  destruct (string_truthy (parentField opts)).
  - apply cbind_Return in H as (p & Hp & H). injection H as <-. eauto.
  - now injection H as <-.
Qed.

End Attributes.

(** X5. The descriptor that [buildAction] returns has the keys [_index]
    and [_id], [_type] when the resolved type is truthy, [parent] when
    [parentField] is set, [version] and [versionType] when a version is
    configured, and no other key. *)
Theorem descriptor_keys
    (get pick : jsval -> fieldpath -> jsval) (r : parsed_record)
    (opts : options) (doc : jsval) (d : descriptor) :
  buildAction get pick r opts = Return (doc, d) ->
  exists _type,
    type_of_descriptor get r opts (default "." (separator opts))
    = Return _type /\
    dom d
    = ({["_index"; "_id"]}
       ∪ (if truthy _type then {["_type"]} else ∅)
       ∪ (if string_truthy (parentField opts) then {["parent"]} else ∅)
       ∪ (if version_configured opts
          then {["version"; "versionType"]} else ∅)
       : gset string).
Proof.
  intros H.
  destruct (buildAction_inv _ _ _ _ _ _ H)
    as (id & _index & _type & d1 & _ & _ & _ & Htype & Hp & Hv).
  exists _type. split; [exact Htype|].
  rewrite (with_version_dom _ _ _ _ _ _ Hv).
  rewrite (with_parent_dom _ _ _ _ _ Hp).
  now rewrite literal_dom.
Qed.

Lemma descriptor_keys_witness :
  exists doc d,
    Samples.build Cases.child_parsed
      (Cases.set_parentField (Some "owner")
         (Cases.set_versionField (Some "rev") Cases.base))
    = Return (doc, d) /\
    dom d
    = ({["_index"; "_id"; "parent"; "version"; "versionType"]}
       : gset string).
Proof.
  destruct (Samples.build Cases.child_parsed
              (Cases.set_parentField (Some "owner")
                 (Cases.set_versionField (Some "rev") Cases.base)))
    as [[doc d]|e] eqn:Hb; [|discriminate Hb].
  exists doc, d. split; [reflexivity|].
  destruct (descriptor_keys Reference.get Reference.pick
              Cases.child_parsed
              (Cases.set_parentField (Some "owner")
                 (Cases.set_versionField (Some "rev") Cases.base))
              doc d Hb) as (_type & Htype & Hdom).
  vm_compute in Htype. injection Htype as <-.
  rewrite Hdom. simpl. set_solver.
Defined.

(** X6. When neither [versionField] nor [versionResolver] is configured
    the descriptor has no [version] and no [versionType]; when one is, the
    resolved version is a number, [version] is that number and
    [versionType] is [external]. *)
Theorem version_attributes
    (get pick : jsval -> fieldpath -> jsval) (r : parsed_record)
    (opts : options) (doc : jsval) (d : descriptor) :
  buildAction get pick r opts = Return (doc, d) ->
  if version_configured opts
  then exists n,
      resolve_version get r opts doc = Return (VNum n) /\
      d !! "version" = Some (VNum n) /\
      d !! "versionType" = Some (VStr "external")
  else d !! "version" = None /\ d !! "versionType" = None.
Proof.
  intros H.
  destruct (buildAction_inv _ _ _ _ _ _ H)
    as (id & _index & _type & d1 & _ & _ & _ & _ & Hp & Hv).
  destruct (version_configured opts) eqn:Hc.
  - destruct (with_version_configured _ _ _ _ _ _ Hc Hv) as (n & Hres & ->).
    exists n. split; [exact Hres|]. split.
    + rewrite lookup_insert_ne by discriminate. apply lookup_insert_eq.
    + apply lookup_insert_eq.
  - rewrite (with_version_unconfigured _ _ _ _ _ _ Hc Hv).
    assert (Hnone : forall k, k <> "_index" -> k <> "_id" -> k <> "_type" ->
                              k <> "parent" -> d1 !! k = None).
    { intros k H1 H2 H3 H4.
      rewrite (with_parent_lookup _ _ _ _ _ _ Hp) by assumption.
      apply not_elem_of_dom. rewrite literal_dom.
      destruct (truthy _type); set_solver. }
    split; apply Hnone; discriminate.
Qed.

Lemma version_attributes_witness :
  exists doc d,
    Samples.build Cases.child_parsed
      (Cases.set_versionField (Some "rev") Cases.base)
    = Return (doc, d) /\
    d !! "version" = Some (VNum 7) /\
    d !! "versionType" = Some (VStr "external").
Proof.
  destruct (Samples.build Cases.child_parsed
              (Cases.set_versionField (Some "rev") Cases.base))
    as [[doc d]|e] eqn:Hb; [|discriminate Hb].
  exists doc, d. split; [reflexivity|].
  destruct (version_attributes Reference.get Reference.pick
              Cases.child_parsed
              (Cases.set_versionField (Some "rev") Cases.base) doc d Hb)
    as (n & Hres & Hversion & Htype).
  vm_compute in Hres. injection Hres as <-.
  split; assumption.
Defined.

(** X7. When [parentField] is set, [parent] is the value that [getField]
    finds for it, as it is (no separator, no coercion to a string); when it
    is not set the descriptor has no [parent]. *)
Theorem parent_attribute
    (get pick : jsval -> fieldpath -> jsval) (r : parsed_record)
    (opts : options) (doc : jsval) (d : descriptor) :
  buildAction get pick r opts = Return (doc, d) ->
  if string_truthy (parentField opts)
  then exists v,
      getField get r (FStr (default "" (parentField opts))) = Return v /\
      d !! "parent" = Some v
  else d !! "parent" = None.
Proof.
  intros H.
  destruct (buildAction_inv _ _ _ _ _ _ H)
    as (id & _index & _type & d1 & _ & _ & _ & _ & Hp & Hv).
  rewrite (with_version_lookup _ _ _ _ _ _ _ Hv) by discriminate.
  pose proof (with_parent_value _ _ _ _ _ Hp) as Hvalue.
  destruct (string_truthy (parentField opts)).
  - destruct Hvalue as (v & Hget & ->). exists v.
    split; [exact Hget|]. apply lookup_insert_eq.
  - rewrite Hvalue. apply not_elem_of_dom. rewrite literal_dom.
    destruct (truthy _type); set_solver.
Qed.

Lemma parent_attribute_witness :
  exists doc d,
    Samples.build Cases.child_parsed
      (Cases.set_parentField (Some "shard") Cases.base)
    = Return (doc, d) /\
    d !! "parent" = Some (VNum 3).
Proof.
  destruct (Samples.build Cases.child_parsed
              (Cases.set_parentField (Some "shard") Cases.base))
    as [[doc d]|e] eqn:Hb; [|discriminate Hb].
  exists doc, d. split; [reflexivity|].
  destruct (parent_attribute Reference.get Reference.pick
              Cases.child_parsed
              (Cases.set_parentField (Some "shard") Cases.base) doc d Hb)
    as (v & Hget & Hparent).
  vm_compute in Hget. injection Hget as <-. exact Hparent.
Defined.

(** X8. The [_index] of the descriptor is always a string: the configured
    [index] when there is one, and no field of the record is read for it;
    otherwise [indexPrefix] (nothing by default) followed by the value of
    [indexField] as a template literal prints it. *)
Theorem index_attribute
    (get pick : jsval -> fieldpath -> jsval) (r : parsed_record)
    (opts : options) (doc : jsval) (d : descriptor) :
  buildAction get pick r opts = Return (doc, d) ->
  exists s,
    d !! "_index" = Some (VStr s) /\
    if string_truthy (index opts)
    then index opts = Some s
    else exists v,
        assembleField get r (indexField opts)
          (Some (default "." (separator opts))) = Return v /\
        s = default "" (indexPrefix opts) ++ ToString v.
Proof.
  intros H.
  destruct (buildAction_lookup _ _ _ _ _ _ H)
    as (id & _index & _type & _ & Hindex & _ & _ & Hd & _).
  unfold index_of_descriptor in Hindex.
  destruct (string_truthy (index opts)) eqn:Hi.
  - injection Hindex as <-. eexists. split; [exact Hd|].
    destruct (index opts); [reflexivity|discriminate].
  - apply cbind_Return in Hindex as (v & Hv & Hindex).
    injection Hindex as <-. eexists. split; [exact Hd|]. eauto.
Qed.

Lemma index_attribute_witness :
  exists doc d,
    Samples.build Cases.child_parsed
      (Cases.set_indexPrefix (Some "shard-")
         (Cases.set_indexField (FStr "shard")
            (Cases.set_index None Cases.base)))
    = Return (doc, d) /\
    d !! "_index" = Some (VStr "shard-3").
Proof.
  destruct (Samples.build Cases.child_parsed
              (Cases.set_indexPrefix (Some "shard-")
                 (Cases.set_indexField (FStr "shard")
                    (Cases.set_index None Cases.base))))
    as [[doc d]|e] eqn:Hb; [|discriminate Hb].
  exists doc, d. split; [reflexivity|].
  destruct (index_attribute Reference.get Reference.pick
              Cases.child_parsed
              (Cases.set_indexPrefix (Some "shard-")
                 (Cases.set_indexField (FStr "shard")
                    (Cases.set_index None Cases.base)))
              doc d Hb) as (s & Hd & v & Hv & ->).
  vm_compute in Hv. injection Hv as <-. exact Hd.
Defined.

(** X9. The [_id] of the descriptor is what [idResolver] returns for the
    document that [buildDoc] built (picked and transformed) and the old
    image; without a resolver it is [assembleField] of [idField], and
    without either of the names of [Keys]. *)
Theorem id_attribute
    (get pick : jsval -> fieldpath -> jsval) (r : parsed_record)
    (opts : options) (doc : jsval) (d : descriptor) :
  buildAction get pick r opts = Return (doc, d) ->
  buildDoc pick r opts = Return doc /\
  exists id,
    d !! "_id" = Some id /\
    match idResolver opts with
    | Some resolver => resolver doc (VObj (pOldImage r)) = Return id
    | None =>
        assembleField get r
          (if fieldpath_truthy (idField opts)
           then idField opts
           else FList (Object_keys (pKeys r)))
          (Some (default "." (separator opts)))
        = Return id
    end.
Proof.
  intros H.
  destruct (buildAction_inv _ _ _ _ _ _ H)
    as (id0 & _index0 & _type0 & d1 & Hdoc & _).
  split; [exact Hdoc|].
  destruct (buildAction_lookup _ _ _ _ _ _ H)
    as (id & _index & _type & Hid & _ & _ & Hd & _).
  exists id. split; [exact Hd|].
  unfold resolve_id in Hid.
  destruct (idResolver opts); [exact Hid|].
  destruct (fieldpath_truthy (idField opts)); exact Hid.
Qed.

Lemma id_attribute_witness :
  exists doc d,
    Samples.build Cases.child_parsed
      (Cases.set_idResolver
         (Some (fun doc _ => Return (Reference.get doc (FStr "owner"))))
         (Cases.set_pickFields (FList ["owner"; "rev"]) Cases.base))
    = Return (doc, d) /\
    doc = VObj [("owner", VStr "p1"); ("rev", VNum 7)] /\
    d !! "_id" = Some (VStr "p1").
Proof.
  destruct (Samples.build Cases.child_parsed
              (Cases.set_idResolver
                 (Some (fun doc _ =>
                          Return (Reference.get doc (FStr "owner"))))
                 (Cases.set_pickFields (FList ["owner"; "rev"]) Cases.base)))
    as [[doc d]|e] eqn:Hb; [|discriminate Hb].
  exists doc, d. split; [reflexivity|].
  destruct (id_attribute Reference.get Reference.pick Cases.child_parsed
              (Cases.set_idResolver
                 (Some (fun doc _ =>
                          Return (Reference.get doc (FStr "owner"))))
                 (Cases.set_pickFields (FList ["owner"; "rev"]) Cases.base))
              doc d Hb) as (Hdoc & id & Hd & Hid).
  vm_compute in Hdoc. injection Hdoc as <-.
  split; [reflexivity|].
  vm_compute in Hid. injection Hid as <-. exact Hd.
Defined.

(** X10. When no [idResolver] is configured and the [idField] path is
    undefined in all three images, [buildAction] throws
    [FieldNotFoundError] for that path as soon as the document is built,
    whatever index, type, parent or version are configured. *)
Theorem missing_idField_fails
    (get pick : jsval -> fieldpath -> jsval) (r : parsed_record)
    (opts : options) (doc : jsval) (p : string) :
  buildDoc pick r opts = Return doc ->
  idResolver opts = None ->
  idField opts = FStr p ->
  p <> "" ->
  get (VObj (pKeys r)) (FStr p) = VUndef ->
  get (VObj (pNewImage r)) (FStr p) = VUndef ->
  get (VObj (pOldImage r)) (FStr p) = VUndef ->
  buildAction get pick r opts = Throw (FieldNotFoundError r (FStr p)).
Proof.
  intros Hdoc Hres Hfield Hp Hk Hn Ho.
  unfold buildAction. rewrite Hdoc. simpl.
  unfold resolve_id. rewrite Hres, Hfield. simpl.
  apply String.eqb_neq in Hp. rewrite Hp. simpl.
  rewrite getField_unfold. cbv zeta. rewrite Hk, Hn, Ho. reflexivity.
Qed.

Lemma missing_idField_fails_witness :
  Samples.build Cases.child_parsed
    (Cases.set_parentField (Some "nowhere")
       (Cases.set_idField (FStr "uuid") Cases.base))
  = Throw (FieldNotFoundError Cases.child_parsed (FStr "uuid")).
Proof.
  apply (missing_idField_fails Reference.get Reference.pick
           Cases.child_parsed
           (Cases.set_parentField (Some "nowhere")
              (Cases.set_idField (FStr "uuid") Cases.base))
           (VObj (pNewImage Cases.child_parsed)) "uuid");
    try reflexivity.
  discriminate.
Defined.

(** ** build-request.js: what one record appends *)

(** X11. [INSERT] and [MODIFY] are handled alike: for a truthy document
    the reducer appends an index action with the descriptor of
    [buildAction] unchanged (a configured version is not incremented),
    then the document, and one metadata entry for both. *)
Theorem upsert_appends_action_and_document
    (get pick : jsval -> fieldpath -> jsval)
    (unmarshall : jsval -> completion obj)
    (opts : options) (acc : request) (record : stream_record)
    (p : parsed_record) (doc : jsval) (d : descriptor) :
  event_is record "INSERT" = true \/ event_is record "MODIFY" = true ->
  parseRecord unmarshall record = Return p ->
  buildAction get pick p opts = Return (doc, d) ->
  truthy doc = true ->
  map_record get pick unmarshall opts acc record
  = Return
      {| actions := (actions acc ++ [IndexAction d; Document doc])%list;
         meta :=
           (meta acc ++
              [{| meta_record := record; meta_parsed := p;
                  meta_action := IndexAction d;
                  meta_document := doc |}])%list |}.
Proof.
  intros Hname Hparse Hbuild Hdoc.
  unfold map_record. rewrite Hparse. simpl. rewrite Hbuild. simpl.
  rewrite Hdoc.
  assert (Hupsert : event_is record "INSERT" || event_is record "MODIFY"
                    = true)
    by (destruct Hname as [-> | ->]; [reflexivity|apply orb_true_r]).
  rewrite Hupsert. reflexivity.
Qed.

Lemma upsert_appends_action_and_document_witness :
  exists doc d,
    Samples.build Cases.child_parsed
      (Cases.set_versionField (Some "rev") Cases.base)
    = Return (doc, d) /\
    d !! "version" = Some (VNum 7) /\
    map_record Reference.get Reference.pick Reference.unmarshall
      (Cases.set_versionField (Some "rev") Cases.base) no_request
      Cases.child_record
    = Return
        {| actions := [IndexAction d; Document doc];
           meta :=
             [{| meta_record := Cases.child_record;
                 meta_parsed := Cases.child_parsed;
                 meta_action := IndexAction d;
                 meta_document := doc |}] |}.
Proof.
  destruct (Samples.build Cases.child_parsed
              (Cases.set_versionField (Some "rev") Cases.base))
    as [[doc d]|e] eqn:Hb; [|discriminate Hb].
  exists doc, d. split; [reflexivity|].
  destruct (buildAction_inv _ _ _ _ _ _ Hb)
    as (id & _index & _type & d1 & Hdoc & _ & _ & _ & _ & Hv).
  vm_compute in Hdoc. injection Hdoc as <-.
  split.
  - assert (Hc : version_configured
                   (Cases.set_versionField (Some "rev") Cases.base) = true)
      by reflexivity.
    destruct (with_version_configured _ _ _ _ _ _ Hc Hv)
      as (n & Hres & ->).
    vm_compute in Hres. injection Hres as <-.
    rewrite lookup_insert_ne by discriminate. apply lookup_insert_eq.
  - apply (upsert_appends_action_and_document
             Reference.get Reference.pick Reference.unmarshall
             (Cases.set_versionField (Some "rev") Cases.base) no_request
             Cases.child_record Cases.child_parsed _ d).
    + right. reflexivity.
    + reflexivity.
    + exact Hb.
    + reflexivity.
Defined.

(** X12. For a [REMOVE] record with a truthy document and no version
    configured, the reducer appends one delete action with the descriptor
    of [buildAction] as it is, and no document. *)
Theorem remove_without_version_keeps_descriptor
    (get pick : jsval -> fieldpath -> jsval)
    (unmarshall : jsval -> completion obj)
    (opts : options) (acc : request) (record : stream_record)
    (p : parsed_record) (doc : jsval) (d : descriptor) :
  event_is record "REMOVE" = true ->
  version_configured opts = false ->
  parseRecord unmarshall record = Return p ->
  buildAction get pick p opts = Return (doc, d) ->
  truthy doc = true ->
  map_record get pick unmarshall opts acc record
  = Return
      {| actions := (actions acc ++ [DeleteAction d])%list;
         meta :=
           (meta acc ++
              [{| meta_record := record; meta_parsed := p;
                  meta_action := DeleteAction d;
                  meta_document := doc |}])%list |}.
Proof.
  intros Hremove Hconf Hparse Hbuild Hdoc.
  assert (Hversion : d !! "version" = None).
  { destruct (buildAction_inv _ _ _ _ _ _ Hbuild)
      as (id & _index & _type & d1 & _ & _ & _ & _ & Hp & Hv).
    rewrite (with_version_unconfigured _ _ _ _ _ _ Hconf Hv).
    rewrite (with_parent_lookup _ _ _ _ _ _ Hp) by discriminate.
    apply not_elem_of_dom. rewrite literal_dom.
    destruct (truthy _type); set_solver. }
  unfold map_record. rewrite Hparse. simpl. rewrite Hbuild. simpl.
  rewrite Hdoc.
  rewrite (event_is_exclusive record "REMOVE" "INSERT" Hremove)
    by discriminate.
  rewrite (event_is_exclusive record "REMOVE" "MODIFY" Hremove)
    by discriminate.
  rewrite Hremove. simpl.
  unfold bump_version. rewrite Hversion. reflexivity.
Qed.

Lemma remove_without_version_keeps_descriptor_witness :
  exists doc d,
    Samples.build Samples.removed_parsed Cases.base = Return (doc, d) /\
    map_record Reference.get Reference.pick Reference.unmarshall
      Cases.base no_request Samples.removed_record
    = Return
        {| actions := [DeleteAction d];
           meta :=
             [{| meta_record := Samples.removed_record;
                 meta_parsed := Samples.removed_parsed;
                 meta_action := DeleteAction d;
                 meta_document := doc |}] |}.
Proof.
  destruct (Samples.build Samples.removed_parsed Cases.base)
    as [[doc d]|e] eqn:Hb; [|discriminate Hb].
  exists doc, d. split; [reflexivity|].
  apply (remove_without_version_keeps_descriptor
           Reference.get Reference.pick Reference.unmarshall
           Cases.base no_request Samples.removed_record
           Samples.removed_parsed doc d); try reflexivity.
  - exact Hb.
  - destruct (buildAction_inv _ _ _ _ _ _ Hb)
      as (id & _index & _type & d1 & Hdoc & _).
    vm_compute in Hdoc. injection Hdoc as <-. reflexivity.
Defined.

(** X13. The event name is looked at only for a truthy document: a record
    of an unknown event name whose document is falsy is skipped without an
    error, and one whose document is truthy throws
    [UnknownEventNameError] with the raw record. *)
Theorem event_name_is_checked_after_the_document
    (get pick : jsval -> fieldpath -> jsval)
    (unmarshall : jsval -> completion obj)
    (opts : options) (acc : request) (record : stream_record)
    (p : parsed_record) (doc : jsval) (d : descriptor) :
  event_is record "INSERT" = false ->
  event_is record "MODIFY" = false ->
  event_is record "REMOVE" = false ->
  parseRecord unmarshall record = Return p ->
  buildAction get pick p opts = Return (doc, d) ->
  map_record get pick unmarshall opts acc record
  = if truthy doc
    then Throw (UnknownEventNameError record)
    else Return acc.
Proof.
  intros Hi Hm Hr Hparse Hbuild.
  unfold map_record. rewrite Hparse. simpl. rewrite Hbuild. simpl.
  rewrite Hi, Hm, Hr. simpl. destruct (truthy doc); reflexivity.
Qed.

Lemma event_name_is_checked_after_the_document_witness :
  map_record Reference.get Reference.pick Reference.unmarshall
    (Samples.hooked None (Some Samples.skipping) None None None
       Samples.resolving)
    no_request Cases.renamed_record
  = Return no_request.
Proof.
  apply (event_name_is_checked_after_the_document
           Reference.get Reference.pick Reference.unmarshall
           (Samples.hooked None (Some Samples.skipping) None None None
              Samples.resolving)
           no_request Cases.renamed_record
           {| pKeys := [("id", VStr "abc")];
              pNewImage := [("id", VStr "abc")];
              pOldImage := [] |}
           VNull
           (<["_id" := VStr "abc"]> (<["_index" := VStr "index"]> ∅)));
    reflexivity.
Defined.

(** ** index.js: the submission and the order of the calls *)

Section Calls.

Variable get : jsval -> fieldpath -> jsval.
Variable pick : jsval -> fieldpath -> jsval.
Variable unmarshall : jsval -> completion obj.
Variable EVENT : event -> option string.
Variable opts : options.
Variable ev : event.
Variable context : jsval.





End Calls.



Example all_five_calls :
  let run :=
    handle Reference.get Reference.pick Reference.unmarshall
      Reference.EVENT Cases.all_hooks
      {| Records := [Cases.renamed_record; Samples.id_record] |}
      VNull [] in
  fst run = Return (VStr "handled") /\
  map
    (fun c =>
       match c with
       | BeforeHookCall => "beforeHook"
       | RecordErrorHookCall _ => "recordErrorHook"
       | BulkCall _ => "bulk"
       | AfterHookCall _ _ => "afterHook"
       | ErrorHookCall _ => "errorHook"
       end) (snd run)
  = ["beforeHook"; "recordErrorHook"; "bulk"; "afterHook"; "errorHook"].
Proof. split; reflexivity. Qed.






(** X17. With an [errorHook] that returns, the invocation returns: no
    error of a hook, of the validation, of a record or of the client
    reaches the caller. *)
Theorem errorHook_makes_handle_return
    (get pick : jsval -> fieldpath -> jsval)
    (unmarshall : jsval -> completion obj) (EVENT : event -> option string)
    (opts : options) (ev : event) (context : jsval) (tr : list call)
    (hook : event -> jsval -> exn -> completion jsval) :
  errorHook opts = Some hook ->
  (forall err, exists v, hook ev context err = Return v) ->
  exists v tr',
    handle get pick unmarshall EVENT opts ev context tr = (Return v, tr').
Proof.
  intros Hhook Hreturns. unfold handle, handle_catch. run_monad.
  destruct (handle_try get pick unmarshall EVENT opts ev context tr)
    as [[v|err] t1].
  - eauto.
  - rewrite Hhook. destruct (Hreturns err) as (v & ->). eauto.
Qed.

Lemma errorHook_makes_handle_return_witness :
  exists v tr',
    handle Reference.get Reference.pick Reference.unmarshall
      Reference.EVENT
      (Cases.set_errorHook (Some Samples.handled)
         (Samples.plain Samples.rejecting))
      {| Records := [Samples.id_record; Cases.renamed_record] |} VNull []
    = (Return v, tr').
Proof.
  apply (errorHook_makes_handle_return
           Reference.get Reference.pick Reference.unmarshall
           Reference.EVENT
           (Cases.set_errorHook (Some Samples.handled)
              (Samples.plain Samples.rejecting))
           {| Records := [Samples.id_record; Cases.renamed_record] |}
           VNull [] Samples.handled eq_refl).
  intros err. exists (VStr "handled"). reflexivity.
Defined.

(** ** index.js: the exported function *)

(** X18. Called without a callback, the exported function returns the
    promise of [handle].  Called with one, it returns nothing, and the
    callback's first call reports how [handle] completed: the result after
    [null], or the error.  That call is the only one unless the callback
    throws on a result; then the callback is called once more, with what
    it threw. *)
Theorem callback_reports_the_outcome
    (get pick : jsval -> fieldpath -> jsval)
    (unmarshall : jsval -> completion obj) (EVENT : event -> option string)
    (opts : options) (ev : event) (context : jsval) (tr : list call) :
  let outcome :=
    fst (handle get pick unmarshall EVENT opts ev context tr) in
  let tr' := snd (handle get pick unmarshall EVENT opts ev context tr) in
  handler get pick unmarshall EVENT opts ev context None tr
  = (Some outcome, tr', []) /\
  forall callback,
    exists calls,
      handler get pick unmarshall EVENT opts ev context (Some callback) tr
      = (None, tr', calls) /\
      match outcome with
      | Return res =>
          match callback (CallbackResult res) with
          | Return _ => calls = [CallbackResult res]
          | Throw e => calls = [CallbackResult res; CallbackError e]
          end
      | Throw err => calls = [CallbackError err]
      end.
Proof.
  intros outcome tr'. subst outcome tr'. unfold handler.
  destruct (handle get pick unmarshall EVENT opts ev context tr)
    as [[res|err] t]; simpl.
  - split; [reflexivity|]. intros callback.
    destruct (callback (CallbackResult res)); eauto.
  - split; [reflexivity|]. intros callback. eauto.
Qed.

Example callback_called_twice :
  handler Reference.get Reference.pick Reference.unmarshall Reference.EVENT
    (Samples.hooked None (Some Samples.skipping) None None None
       Samples.resolving)
    {| Records := [Samples.id_record] |} VNull
    (Some (fun args =>
             match args with
             | CallbackResult _ => Throw (Thrown (VStr "callback failed"))
             | CallbackError _ => Return tt
             end))
    []
  = (None, [],
     [CallbackResult empty_result;
      CallbackError (Thrown (VStr "callback failed"))]).
Proof. reflexivity. Qed.

(** ** build-request.js: records that are not skipped *)

Section NotSkipped.

Variable get : jsval -> fieldpath -> jsval.
Variable pick : jsval -> fieldpath -> jsval.
Variable unmarshall : jsval -> completion obj.
Variable opts : options.

Hypothesis no_transform : transformRecordHook opts = None.
Hypothesis pick_object : forall o paths, truthy (pick (VObj o) paths) = true.

Lemma buildDoc_truthy (r : parsed_record) :
  exists doc, buildDoc pick r opts = Return doc /\ truthy doc = true.
Proof.
  unfold buildDoc. rewrite no_transform.
  destruct (fieldpath_truthy (pickFields opts)); eexists; split;
    try reflexivity.
  apply pick_object.
Qed.

Lemma map_record_not_skipped (record : stream_record) (delta : request) :
  map_record get pick unmarshall opts no_request record = Return delta ->
  exists m, meta delta = [m] /\ meta_record m = record.
Proof.
  intros H.
  destruct (map_record_one get pick unmarshall opts record delta H)
    as [->|(m & -> & Hm & _)]; [|eauto].
  exfalso. unfold map_record in H.
  destruct (parseRecord unmarshall record) as [p|e]; [simpl in H|discriminate].
  destruct (buildAction get pick p opts) as [[doc d]|e] eqn:Hb;
    [simpl in H|discriminate].
  destruct (buildAction_inv _ _ _ _ _ _ Hb)
    as (id & _index & _type & d1 & Hdoc & _).
  destruct (buildDoc_truthy p) as (doc' & Hdoc' & Htruthy).
  rewrite Hdoc in Hdoc'. injection Hdoc' as <-. rewrite Htruthy in H.
  destruct (event_is record "INSERT" || event_is record "MODIFY");
    [discriminate|].
  destruct (event_is record "REMOVE"); discriminate.
Qed.

Lemma reduce_records_not_skipped (ev : event) (context : jsval)
    (records : list stream_record) (tr tr' : list call) (req : request) :
  recordErrorHook opts = None ->
  reduce_records get pick unmarshall ev context opts records no_request tr
  = (Return req, tr') ->
  map meta_record (meta req) = records.
Proof.
  intros Hhook. revert tr req.
  induction records as [|record rest IH]; intros tr req H.
  - simpl in H. run_monad. now injection H as <- <-.
  - simpl in H. run_monad.
    destruct (map_record get pick unmarshall opts no_request record)
      as [delta|e] eqn:Hmap.
    + rewrite reduce_records_pushes in H.
      destruct (reduce_records get pick unmarshall ev context opts rest
                  no_request tr) as [[req0|e] tr0] eqn:Hrest;
        [|discriminate].
      injection H as <- <-.
      destruct (map_record_not_skipped record delta Hmap)
        as (m & Hmeta & Hrecord).
      simpl. rewrite Hmeta. simpl. rewrite Hrecord.
      f_equal. exact (IH _ _ Hrest).
    + rewrite Hhook in H. discriminate.
Qed.

End NotSkipped.

(** X19. Only [transformRecordHook] skips a record: without it and
    without a [recordErrorHook], a request that [buildRequest] returns has
    exactly one metadata entry for each record of the batch, in the order
    of the batch. *)
Theorem every_record_has_its_entry
    (get pick : jsval -> fieldpath -> jsval)
    (unmarshall : jsval -> completion obj)
    (opts : options) (ev : event) (context : jsval)
    (tr tr' : list call) (req : request) :
  transformRecordHook opts = None ->
  (forall o paths, truthy (pick (VObj o) paths) = true) ->
  recordErrorHook opts = None ->
  buildRequest get pick unmarshall ev context opts tr = (Return req, tr') ->
  map meta_record (meta req) = Records ev.
Proof.
  intros Htransform Hpick Hhook H. unfold buildRequest in H.
  exact (reduce_records_not_skipped get pick unmarshall opts
           Htransform Hpick ev context (Records ev) tr tr' req Hhook H).
Qed.

Lemma every_record_has_its_entry_witness :
  exists req,
    buildRequest Reference.get Reference.pick Reference.unmarshall
      {| Records := [Samples.removed_record; Cases.child_record] |} VNull
      (Cases.set_pickFields (FStr "nowhere") Cases.base) []
    = (Return req, []) /\
    map meta_record (meta req)
    = [Samples.removed_record; Cases.child_record].
Proof.
  destruct (buildRequest Reference.get Reference.pick Reference.unmarshall
              {| Records := [Samples.removed_record; Cases.child_record] |}
              VNull (Cases.set_pickFields (FStr "nowhere") Cases.base) [])
    as [[req|e] tr'] eqn:Hb; [|discriminate Hb].
  assert (Htr : tr' = []) by (vm_compute in Hb; congruence). subst tr'.
  exists req. split; [reflexivity|].
  apply (every_record_has_its_entry
           Reference.get Reference.pick Reference.unmarshall
           (Cases.set_pickFields (FStr "nowhere") Cases.base)
           {| Records := [Samples.removed_record; Cases.child_record] |}
           VNull [] [] req); try reflexivity.
  exact Hb.
Defined.


